(** * SYNTH: a shallow embedding of the synthesis core

    The development follows the C++ sources of the synthesiser:

    - [Oscillator]        (Source/Oscillator.h): the band-limited oscillator;
    - [UnisonOscillator]  (UnisonOscillator.h): the bank of detuned oscillators;
    - [VintageProcessor]  (VintageProcessor.h): saturation and analog noise;
    - [SynthVoice]        (Source/SynthVoice.cpp and the class declaration in
                           Source/SynthSound.h): the per-note voice;
    - [FletcherMunson]    (PluginProcessor.cpp, [processBlock]): the
                           perceptual compensation of the rendered buffer;
    - [SpectrumAnalyzer]  (SpectrumAnalyzer.h): the FIFO of the analyser.

    Arithmetic.  The C++ code computes on [float] and [double].  The modules
    above are written over the real numbers: every operation is the exact
    operation that the rounded one approximates, [std::sin], [std::cos],
    [std::sqrt], [std::pow] and [std::tanh] are the functions of the
    standard library of reals.  A result proved over the reals holds of the
    code up to floating-point rounding wherever the computation is
    continuous in its operands and no operand is a NaN or an infinity,
    which the reals do not have.  It says nothing where a rounding moves an
    operand across a discontinuity, or where a NaN comes in.  There the
    function is modelled a second time on the machine numbers, with the
    IEEE-754 operations of the standard library ([SpecFloat]), rounded to
    nearest even one operation at a time:

    - [OscillatorDouble]  [Oscillator::setFrequency] on binary64, for sample
                          rates of zero;
    - [OscillatorIEEE]    [Oscillator::getNextSample] and [polyBlep] on
                          binary64 and binary32: the square wave wraps the
                          rounded sum [currentPhase + 0.5], and the rounding
                          decides on which side of the wrap it falls;
    - [JuceFloat]         [juce::jlimit] on binary32: its two comparisons
                          are both false on a NaN.

    The classes of the JUCE framework that the voice owns ([juce::ADSR],
    [juce::dsp::StateVariableTPTFilter], [juce::Random]) are not part of the
    repository.  They are interfaces here (type classes in [Juce]); the
    voice is generic in them, and [JuceADSR], [JuceFilter] and [JuceRandom]
    give one instance of each, following the behaviour of the library. *)

From Stdlib Require Import Reals Lra Lia ZArith List Bool.
From Stdlib Require Import Floats.SpecFloat.
Import ListNotations.

Local Open Scope R_scope.

(* ################################################################# *)
(** * Part I: the program *)

(** ** Control structure and containers *)

(** [for (int i = start; ...; ++i) body], run [count] times. *)
Fixpoint forLoop {S : Type} (body : Z -> S -> S) (count : nat) (i : Z) (s : S) : S :=
  match count with
  | O => s
  | Datatypes.S k => forLoop body k (i + 1)%Z (body i s)
  end.

(** Assignment to the [i]-th cell of an array; the arrays of the program are
    never indexed out of their bounds (the callers clamp the index), and the
    model leaves the array as it is there. *)
Fixpoint replace_nth {A : Type} (i : nat) (x : A) (l : list A) : list A :=
  match l, i with
  | [], _ => []
  | _ :: t, O => x :: t
  | h :: t, Datatypes.S j => h :: replace_nth j x t
  end.

(** The shape of a loop body that rewrites cell [i] of an array in
    iteration [i] and touches nothing else. *)
Definition cellwise {A : Type} (f : Z -> A -> A) (i : Z) (l : list A) : list A :=
  match nth_error l (Z.to_nat i) with
  | None => l
  | Some a => replace_nth (Z.to_nat i) (f i a) l
  end.

(** Truncation towards zero, as in the integer part that [fmod] removes. *)
Definition Rtrunc (x : R) : Z :=
  if Rle_dec 0 x then Int_part x else (- Int_part (- x))%Z.

(** [std::fmod (x, y)]: [x - n * y], where [n] is [x / y] truncated. *)
Definition fmod (x y : R) : R := x - IZR (Rtrunc (x / y)) * y.

(* ================================================================= *)
(** ** The JUCE framework, at its interface *)

Module Juce.

(** [juce::jlimit (lowerLimit, upperLimit, valueToConstrain)] on floats that
    are numbers.  A real stands for no NaN: what the template does with one
    is in [JuceFloat.jlimit], the same two comparisons on IEEE-754 values. *)
Definition jlimit (lowerLimit upperLimit valueToConstrain : R) : R :=
  if Rlt_dec valueToConstrain lowerLimit then lowerLimit
  else if Rlt_dec upperLimit valueToConstrain then upperLimit
       else valueToConstrain.

(** [juce::jlimit] on [int]. *)
Definition jlimitZ (lowerLimit upperLimit valueToConstrain : Z) : Z :=
  if (valueToConstrain <? lowerLimit)%Z then lowerLimit
  else if (upperLimit <? valueToConstrain)%Z then upperLimit
       else valueToConstrain.

(** [juce::MidiMessage::getMidiNoteInHertz], with A at 440 Hz. *)
Definition getMidiNoteInHertz (noteNumber : Z) : R :=
  440 * Rpower 2 ((IZR noteNumber - 69) / 12).

(** [juce::ADSR]: the operations the voice calls. *)
Class ADSR (E : Type) := {
  noteOn : E -> E;
  noteOff : E -> E;
  isActive : E -> bool;
  getNextSample : E -> R * E
}.

(** [juce::dsp::StateVariableTPTFilter<float>]. *)
Class Filter (F : Type) := {
  setCutoffFrequency : R -> F -> F;
  setResonance : R -> F -> F;
  processSample : Z -> R -> F -> R * F
}.

(** [juce::Random]. *)
Class Random (G : Type) := {
  nextFloat : G -> R * G
}.

End Juce.

(** [juce::AudioBuffer<float>]: one list of samples per channel. *)
Module AudioBuffer.

Definition t := list (list R).

Definition getNumChannels (b : t) : Z := Z.of_nat (length b).

(** [addSample (destChannel, destSample, valueToAdd)].  JUCE asserts that
    both indices are in range; out of range the model adds nothing. *)
Definition addSample (destChannel destSample : Z) (valueToAdd : R) (b : t) : t :=
  if ((destChannel <? 0) || (destSample <? 0))%Z then b
  else
    match nth_error b (Z.to_nat destChannel) with
    | None => b
    | Some ch =>
        match nth_error ch (Z.to_nat destSample) with
        | None => b
        | Some old =>
            replace_nth (Z.to_nat destChannel)
              (replace_nth (Z.to_nat destSample) (old + valueToAdd) ch) b
        end
    end.

End AudioBuffer.

(* ================================================================= *)
(** ** Oscillator.h *)

Module Oscillator.

Inductive OscillatorWaveform := Sine | Saw | Square | Triangle.

Record t := mk {
  currentWaveform : OscillatorWaveform;
  currentPhase : R;
  phaseDelta : R
}.

(** The member initialisers: [Sine], [0.0], [0.0]. *)
Definition init : t := mk Sine 0 0.

Definition setWaveform (waveform : OscillatorWaveform) (o : t) : t :=
  mk waveform (currentPhase o) (phaseDelta o).

Definition setFrequency (frequency sampleRate : R) (o : t) : t :=
  let cyclesPerSample := frequency / sampleRate in
  mk (currentWaveform o) (currentPhase o) cyclesPerSample.

Definition polyBlep (t dt : R) : R :=
  if Rlt_dec t dt then
    let t := t / dt in
    t + t - t * t - 1
  else if Rgt_dec t (1 - dt) then
    let t := (t - 1) / dt in
    t * t + t + t + 1
  else 0.

(** The [switch] of [getNextSample]: the sample for the current phase, in
    exact arithmetic.  For [Square] the code wraps the rounded sum
    [currentPhase + 0.5]: where that sum rounds up to [1.0] the code and
    this definition part ways, see [OscillatorIEEE.waveform_sample]. *)
Definition waveform_sample (w : OscillatorWaveform) (phase delta : R) : R :=
  match w with
  | Sine => sin (phase * 2 * PI)
  | Saw =>
      let sample := 2 * phase - 1 in
      sample - polyBlep phase delta
  | Square =>
      let sample := if Rlt_dec phase 0.5 then 1 else -1 in
      let sample := sample + polyBlep phase delta in
      sample - polyBlep (fmod (phase + 0.5) 1) delta
  | Triangle =>
      if Rlt_dec phase 0.5 then -1 + 4 * phase else 3 - 4 * phase
  end.

(** The phase after [currentPhase += phaseDelta] and the wrap. *)
Definition advance (phase delta : R) : R :=
  let phase := phase + delta in
  if Rge_dec phase 1 then phase - 1 else phase.

(** [getNextSample]: the sample, and the oscillator afterwards. *)
Definition getNextSample (o : t) : R * t :=
  let sample := waveform_sample (currentWaveform o) (currentPhase o) (phaseDelta o) in
  (sample, mk (currentWaveform o) (advance (currentPhase o) (phaseDelta o)) (phaseDelta o)).

Definition reset (o : t) : t := mk (currentWaveform o) 0 (phaseDelta o).

(** [n] successive calls: the samples in order, and the final state. *)
Fixpoint run (n : nat) (o : t) : list R * t :=
  match n with
  | O => ([], o)
  | Datatypes.S k =>
      let '(s, o1) := getNextSample o in
      let '(ss, o2) := run k o1 in
      (s :: ss, o2)
  end.

End Oscillator.

(* ================================================================= *)
(** ** Oscillator::setFrequency over IEEE-754 binary64 *)

Module OscillatorDouble.

(** A C++ [double]. *)
Definition double := spec_float.

Definition prec : Z := 53.
Definition emax : Z := 1024.

Definition div : double -> double -> double := SFdiv prec emax.

(** The double nearest to an integer literal. *)
Definition ofZ (z : Z) : double := binary_normalize prec emax z 0 false.

Definition zero : double := S754_zero false.

(** Neither an infinity nor a NaN. *)
Definition isFinite (x : double) : bool :=
  match x with
  | S754_zero _ | S754_finite _ _ _ => true
  | S754_infinity _ | S754_nan => false
  end.

Record t := mk {
  currentWaveform : Oscillator.OscillatorWaveform;
  currentPhase : double;
  phaseDelta : double
}.

Definition init : t := mk Oscillator.Sine zero zero.

Definition setFrequency (frequency sampleRate : double) (o : t) : t :=
  let cyclesPerSample := div frequency sampleRate in
  mk (currentWaveform o) (currentPhase o) cyclesPerSample.

End OscillatorDouble.

(* ================================================================= *)
(** ** Oscillator.h on the machine numbers: [getNextSample] *)

(** [currentPhase] and [phaseDelta] are [double], the sample is [float].
    Every operation is the IEEE-754 one, rounded to nearest even; an
    expression on [double] operands is evaluated in binary64 and converted
    to binary32 where the code assigns or casts it to [float]. *)
Module OscillatorIEEE.
Import OscillatorDouble.

(** A C++ [float]. *)
Definition float := spec_float.

Definition fprec : Z := 24.
Definition femax : Z := 128.

Definition add : double -> double -> double := SFadd prec emax.
Definition sub : double -> double -> double := SFsub prec emax.
Definition mul : double -> double -> double := SFmul prec emax.

Definition fadd : float -> float -> float := SFadd fprec femax.
Definition fsub : float -> float -> float := SFsub fprec femax.

(** The double nearest to [m * 2 ^ e]. *)
Definition ofDyadic (m e : Z) : double := binary_normalize prec emax m e false.

(** The conversion [(float) x] of a double. *)
Definition toFloat (x : double) : float :=
  match x with
  | S754_finite s m e => binary_normalize fprec femax (cond_Zopp s (Zpos m)) e s
  | _ => x
  end.

(** [std::fmod (x, y)] on doubles: the remainder of the truncated division,
    which is a double and takes the sign of [x]; NaN when [x] is infinite or
    [y] is zero. *)
Definition fmod (x y : double) : double :=
  match x, y with
  | S754_nan, _ | _, S754_nan => S754_nan
  | S754_infinity _, _ => S754_nan
  | _, S754_zero _ => S754_nan
  | S754_zero _, _ => x
  | S754_finite _ _ _, S754_infinity _ => x
  | S754_finite sx mx ex, S754_finite _ my ey =>
      let e := Z.min ex ey in
      let r := Z.rem (Zpos mx * 2 ^ (ex - e)) (Zpos my * 2 ^ (ey - e)) in
      binary_normalize prec emax (cond_Zopp sx r) e sx
  end.

Definition one : double := ofZ 1.
Definition half : double := ofDyadic 1 (-1).

(** [juce::MathConstants<double>::pi]. *)
Definition pi : double := ofDyadic 7074237752028440 (-51).

Definition fzero : float := S754_zero false.
Definition fone : float := toFloat (ofZ 1).
Definition ftwo : float := toFloat (ofZ 2).

Definition setWaveform (waveform : Oscillator.OscillatorWaveform) (o : t) : t :=
  mk waveform (currentPhase o) (phaseDelta o).

Definition polyBlep (t dt : double) : float :=
  if SFltb t dt then
    let t := div t dt in
    toFloat (sub (sub (add t t) (mul t t)) one)
  else if SFltb (sub one dt) t then
    let t := div (sub t one) dt in
    toFloat (add (add (add (mul t t) t) t) one)
  else fzero.

Section WithSin.

(** [std::sin] on doubles, which the C++ library provides. *)
Variable std_sin : double -> double.

(** The [switch] of [getNextSample]. *)
Definition waveform_sample (w : Oscillator.OscillatorWaveform)
    (phase delta : double) : float :=
  match w with
  | Oscillator.Sine => toFloat (std_sin (mul (mul phase (ofZ 2)) pi))
  | Oscillator.Saw =>
      let sample := toFloat (sub (mul (ofZ 2) phase) one) in
      fsub sample (polyBlep phase delta)
  | Oscillator.Square =>
      let sample := if SFltb phase half then fone else SFopp fone in
      let sample := fadd sample (polyBlep phase delta) in
      fsub sample (polyBlep (fmod (add phase half) one) delta)
  | Oscillator.Triangle =>
      if SFltb phase half
      then toFloat (add (ofZ (-1)) (mul (ofZ 4) phase))
      else toFloat (sub (ofZ 3) (mul (ofZ 4) phase))
  end.

(** The phase after [currentPhase += phaseDelta] and the wrap. *)
Definition advance (phase delta : double) : double :=
  let phase := add phase delta in
  if SFleb one phase then sub phase one else phase.

Definition getNextSample (o : t) : float * t :=
  let sample := waveform_sample (currentWaveform o) (currentPhase o) (phaseDelta o) in
  (sample, mk (currentWaveform o) (advance (currentPhase o) (phaseDelta o)) (phaseDelta o)).

(** [n] successive calls: the samples in order, and the final state. *)
Fixpoint run (n : nat) (o : t) : list float * t :=
  match n with
  | O => ([], o)
  | Datatypes.S k =>
      let '(s, o1) := getNextSample o in
      let '(ss, o2) := run k o1 in
      (s :: ss, o2)
  end.

End WithSin.

End OscillatorIEEE.

(* ================================================================= *)
(** ** [juce::jlimit] on the machine numbers *)

Module JuceFloat.

(** A C++ [float]. *)
Definition float := spec_float.

(** The float nearest to [m * 2 ^ e]. *)
Definition ofDyadic (m e : Z) : float := binary_normalize 24 128 m e false.

Definition isNaN (x : float) : bool :=
  match x with
  | S754_nan => true
  | _ => false
  end.

(** The template, with the comparison [<] of IEEE-754: false as soon as an
    operand is a NaN. *)
Definition jlimit (lowerLimit upperLimit valueToConstrain : float) : float :=
  if SFltb valueToConstrain lowerLimit then lowerLimit
  else if SFltb upperLimit valueToConstrain then upperLimit
       else valueToConstrain.

End JuceFloat.

(* ================================================================= *)
(** ** UnisonOscillator.h *)

Module UnisonOscillator.

Definition maxVoices : Z := 7.

Record t := mk {
  oscillators : list Oscillator.t;
  numVoices : Z;
  detuneAmount : R;
  stereoWidth : R
}.

(** The constructor adds [maxVoices] oscillators; the other members take
    their initialisers. *)
Definition init : t :=
  mk (repeat Oscillator.init (Z.to_nat maxVoices)) 1 0.5 0.5.

Definition setNumVoices (num : Z) (u : t) : t :=
  mk (oscillators u) (Juce.jlimitZ 1 maxVoices num) (detuneAmount u) (stereoWidth u).

Definition setDetuneAmount (amount : R) (u : t) : t :=
  mk (oscillators u) (numVoices u) (Juce.jlimit 0 1 amount) (stereoWidth u).

Definition setStereoWidth (width : R) (u : t) : t :=
  mk (oscillators u) (numVoices u) (detuneAmount u) (Juce.jlimit 0 1 width).

Definition setWaveform (waveform : Oscillator.OscillatorWaveform) (u : t) : t :=
  mk (map (Oscillator.setWaveform waveform) (oscillators u))
     (numVoices u) (detuneAmount u) (stereoWidth u).

(** The value of the local [voiceDetune] in iteration [i] of
    [setFrequency]: initialised to [0.0f], assigned only when
    [numVoices > 1]. *)
Definition voiceDetune (numVoices : Z) (detuneAmount : R) (i : Z) : R :=
  let voiceDetune := 0 in
  if (1 <? numVoices)%Z then
    let voiceIndex := (i - Z.quot numVoices 2)%Z in
    let maxDetuneCents := 15 in
    let detuneCents := IZR voiceIndex * detuneAmount * maxDetuneCents in
    Rpower 2 (detuneCents / 1200)
  else voiceDetune.

(** One iteration of the loop of [setFrequency]. *)
Definition setFrequency_body (frequency sampleRate : R) (numVoices : Z)
    (detuneAmount : R) (i : Z) (oscs : list Oscillator.t) : list Oscillator.t :=
  match nth_error oscs (Z.to_nat i) with
  | None => oscs
  | Some o =>
      replace_nth (Z.to_nat i)
        (Oscillator.setFrequency
           (frequency * voiceDetune numVoices detuneAmount i) sampleRate o)
        oscs
  end.

Definition setFrequency (frequency sampleRate : R) (u : t) : t :=
  mk (forLoop (setFrequency_body frequency sampleRate (numVoices u) (detuneAmount u))
        (Z.to_nat (numVoices u)) 0%Z (oscillators u))
     (numVoices u) (detuneAmount u) (stereoWidth u).

(** The local [pan] in iteration [i] of [getNextSampleStereo]. *)
Definition pan (numVoices : Z) (stereoWidth : R) (i : Z) : R :=
  let pan := 0 in
  if (1 <? numVoices)%Z then
    let pan := 2 * IZR i / IZR (numVoices - 1) - 1 in
    pan * stereoWidth
  else pan.

(** One iteration of the loop of [getNextSampleStereo], on
    [(leftSum, rightSum, oscillators)]. *)
Definition mix_body (numVoices : Z) (stereoWidth : R) (i : Z)
    (st : R * R * list Oscillator.t) : R * R * list Oscillator.t :=
  let '(leftSum, rightSum, oscs) := st in
  match nth_error oscs (Z.to_nat i) with
  | None => st
  | Some o =>
      let '(sample, o') := Oscillator.getNextSample o in
      let panAngle := (pan numVoices stereoWidth i + 1) * 0.25 * PI in
      let leftGain := cos panAngle in
      let rightGain := sin panAngle in
      (leftSum + sample * leftGain, rightSum + sample * rightGain,
       replace_nth (Z.to_nat i) o' oscs)
  end.

(** [getNextSampleStereo]: the pair (left, right), and the bank afterwards. *)
Definition getNextSampleStereo (u : t) : (R * R) * t :=
  let '(leftSum, rightSum, oscs) :=
    forLoop (mix_body (numVoices u) (stereoWidth u))
      (Z.to_nat (numVoices u)) 0%Z (0, 0, oscillators u) in
  let normFactor := 1 / sqrt (IZR (numVoices u)) in
  ((leftSum * normFactor, rightSum * normFactor),
   mk oscs (numVoices u) (detuneAmount u) (stereoWidth u)).

Definition reset (u : t) : t :=
  mk (map Oscillator.reset (oscillators u))
     (numVoices u) (detuneAmount u) (stereoWidth u).

(** The class invariant: seven oscillators, between one and seven used. *)
Definition wf (u : t) : Prop :=
  length (oscillators u) = Z.to_nat maxVoices /\ (1 <= numVoices u <= maxVoices)%Z.

End UnisonOscillator.

(* ================================================================= *)
(** ** VintageProcessor.h *)

Module VintageProcessor.

Record t := mk { driftPhase : R }.

Definition init : t := mk 0.

Definition softClip (sample : R) : R :=
    let gain := 1.5 in
    let sample := tanh (sample * gain) in
    sample * 0.8.

Section WithRandom.
Context {G : Type} `{Juce.Random G}.

    (** [getDriftAmount]; [random] is the generator that is [static] in the
        function, the argument [sampleRate] is not used. *)
Definition getDriftAmount (sampleRate : R) (p : t) (random : G) : R * t * G :=
      let '(x, random') := Juce.nextFloat random in
      let drift := driftPhase p + (x - 0.5) * 0.0001 in
      let drift := if Rgt_dec drift 0.0005 then 0.0005 else drift in
      let drift := if Rlt_dec drift (-0.0005) then -0.0005 else drift in
      (drift, mk drift, random').

    (** [addAnalogNoise]; [random] is the generator that is [static] in the
        function: it is drawn from only when the noise is enabled. *)
Definition addAnalogNoise (enabled : bool) (level : R) (random : G) : R * G :=
      if negb enabled then (0, random)
      else
        let '(x, random') := Juce.nextFloat random in
        ((x * 2 - 1) * 0.0003 * level * 100, random').

End WithRandom.

End VintageProcessor.

(* ================================================================= *)
(** ** SynthVoice (SynthVoice.cpp, class declaration in SynthSound.h) *)

Module SynthVoice.

Section Voice.
Context {E F G : Type}.

Record t := mk {
      oscillator : UnisonOscillator.t;
      level : R;
      currentFrequency : R;
      currentSampleRate : R;
      adsr : E;
      filterAdsr : E;
      filter : F;
      baseCutoff : R;
      filterResonance : R;
      filterEnvAmount : R;
      noiseEnabled : bool;
      noiseLevel : R;
      vintageProcessor : VintageProcessor.t;
      (* members of the base class juce::SynthesiserVoice *)
      currentlyPlayingNote : Z;
      sampleRate : R
    }.

Context `{Juce.ADSR E} `{Juce.Filter F} `{Juce.Random G}.

    (** [juce::SynthesiserVoice::clearCurrentNote]: no note is playing. *)
Definition clearCurrentNote (v : t) : t :=
      mk (oscillator v) (level v) (currentFrequency v) (currentSampleRate v)
         (adsr v) (filterAdsr v) (filter v) (baseCutoff v) (filterResonance v)
         (filterEnvAmount v) (noiseEnabled v) (noiseLevel v) (vintageProcessor v)
         (-1) (sampleRate v).

    (** [juce::SynthesiserVoice::isVoiceActive]: the voice is not Free. *)
Definition isVoiceActive (v : t) : bool := (0 <=? currentlyPlayingNote v)%Z.

Definition startNote (midiNoteNumber : Z) (velocity : R) (v : t) : t :=
      let currentFrequency := Juce.getMidiNoteInHertz midiNoteNumber in
      let currentSampleRate := sampleRate v in
      let osc := UnisonOscillator.setFrequency currentFrequency currentSampleRate (oscillator v) in
      let level := velocity * 0.15 in
      let osc := UnisonOscillator.reset osc in
      mk osc level currentFrequency currentSampleRate
         (Juce.noteOn (adsr v)) (Juce.noteOn (filterAdsr v))
         (filter v) (baseCutoff v) (filterResonance v) (filterEnvAmount v)
         (noiseEnabled v) (noiseLevel v) (vintageProcessor v)
         (currentlyPlayingNote v) (sampleRate v).

Definition stopNote (velocity : R) (allowTailOff : bool) (v : t) : t :=
      let v :=
        mk (oscillator v) (level v) (currentFrequency v) (currentSampleRate v)
           (Juce.noteOff (adsr v)) (Juce.noteOff (filterAdsr v))
           (filter v) (baseCutoff v) (filterResonance v) (filterEnvAmount v)
           (noiseEnabled v) (noiseLevel v) (vintageProcessor v)
           (currentlyPlayingNote v) (sampleRate v) in
      if negb allowTailOff || negb (Juce.isActive (adsr v))
      then clearCurrentNote v
      else v.

    (** The cutoff handed to the filter for one sample. *)
Definition modulatedCutoff (v : t) (filterEnvValue : R) : R :=
      let modulation := filterEnvValue * (filterEnvAmount v / 100) * 5000 in
      let modulatedCutoff := baseCutoff v + modulation in
      Juce.jlimit 20 20000 modulatedCutoff.

    (** The body of the loop of [renderNextBlock] up to the two values that
        are added to the buffer: [((filteredLeft, filteredRight), voice,
        random)]. *)
Definition renderFrame (v : t) (random : G) : (R * R) * t * G :=
      let '(envValue, adsr') := Juce.getNextSample (adsr v) in
      let '(filterEnvValue, filterAdsr') := Juce.getNextSample (filterAdsr v) in
      let filter1 := Juce.setCutoffFrequency (modulatedCutoff v filterEnvValue) (filter v) in
      let '((rawLeft, rawRight), osc') := UnisonOscillator.getNextSampleStereo (oscillator v) in
      let ampLeft := rawLeft * level v * envValue in
      let ampRight := rawRight * level v * envValue in
      let '(filteredLeft, filter2) := Juce.processSample 0 ampLeft filter1 in
      let '(filteredRight, filter3) := Juce.processSample 1 ampRight filter2 in
      let filteredLeft := VintageProcessor.softClip filteredLeft in
      let filteredRight := VintageProcessor.softClip filteredRight in
      let '(noise, random') :=
        VintageProcessor.addAnalogNoise (noiseEnabled v) (noiseLevel v) random in
      let filteredLeft := filteredLeft + noise * envValue in
      let filteredRight := filteredRight + noise * envValue in
      ((filteredLeft, filteredRight),
       mk osc' (level v) (currentFrequency v) (currentSampleRate v)
          adsr' filterAdsr' filter3 (baseCutoff v) (filterResonance v)
          (filterEnvAmount v) (noiseEnabled v) (noiseLevel v) (vintageProcessor v)
          (currentlyPlayingNote v) (sampleRate v),
       random').

    (** One iteration of the loop of [renderNextBlock]. *)
Definition renderSample (startSample : Z) (st : AudioBuffer.t * t * G)
        : AudioBuffer.t * t * G :=
      let '(outputBuffer, v, random) := st in
      let '((filteredLeft, filteredRight), v', random') := renderFrame v random in
      let outputBuffer :=
        if (0 <? AudioBuffer.getNumChannels outputBuffer)%Z
        then AudioBuffer.addSample 0 startSample filteredLeft outputBuffer
        else outputBuffer in
      let outputBuffer :=
        if (1 <? AudioBuffer.getNumChannels outputBuffer)%Z
        then AudioBuffer.addSample 1 startSample filteredRight outputBuffer
        else outputBuffer in
      (outputBuffer, v', random').

    (** [renderNextBlock]: [while (--numSamples >= 0) { ...; ++startSample; }]
        behind the early exit, then the release of the voice. *)
Definition renderNextBlock (outputBuffer : AudioBuffer.t)
        (startSample numSamples : Z) (v : t) (random : G) : AudioBuffer.t * t * G :=
      if negb (Juce.isActive (adsr v)) then (outputBuffer, v, random)
      else
        let '(outputBuffer, v, random) :=
          forLoop renderSample (Z.to_nat numSamples) startSample
            (outputBuffer, v, random) in
        if negb (Juce.isActive (adsr v))
        then (outputBuffer, clearCurrentNote v, random)
        else (outputBuffer, v, random).

Definition updateFilter (cutoff resonance envAmount : R) (v : t) : t :=
      mk (oscillator v) (level v) (currentFrequency v) (currentSampleRate v)
         (adsr v) (filterAdsr v)
         (Juce.setResonance resonance (filter v))
         cutoff resonance envAmount
         (noiseEnabled v) (noiseLevel v) (vintageProcessor v)
         (currentlyPlayingNote v) (sampleRate v).

Definition updateUnison (voices : Z) (detune stereo : R) (v : t) : t :=
      let osc := UnisonOscillator.setNumVoices voices (oscillator v) in
      let osc := UnisonOscillator.setDetuneAmount detune osc in
      let osc := UnisonOscillator.setStereoWidth stereo osc in
      mk osc (level v) (currentFrequency v) (currentSampleRate v)
         (adsr v) (filterAdsr v) (filter v) (baseCutoff v) (filterResonance v)
         (filterEnvAmount v) (noiseEnabled v) (noiseLevel v) (vintageProcessor v)
         (currentlyPlayingNote v) (sampleRate v).

Definition updateNoise (enable : bool) (level' : R) (v : t) : t :=
      mk (oscillator v) (level v) (currentFrequency v) (currentSampleRate v)
         (adsr v) (filterAdsr v) (filter v) (baseCutoff v) (filterResonance v)
         (filterEnvAmount v) enable (level' / 100) (vintageProcessor v)
         (currentlyPlayingNote v) (sampleRate v).

End Voice.

Arguments t : clear implicits.

End SynthVoice.


(* ================================================================= *)
(** ** One instance of each JUCE interface *)

(** [juce::ADSR]: the four-stage envelope state machine. *)
Module JuceADSR.

Inductive State := idle | attack | decay | sustain | release.

Record Parameters := mkParameters {
  p_attack : R;
  p_decay : R;
  p_sustain : R;
  p_release : R
}.

Record t := mk {
  state : State;
  parameters : Parameters;
  sampleRate : R;
  envelopeVal : R;
  attackRate : R;
  decayRate : R;
  releaseRate : R
}.

Definition isActive (a : t) : bool :=
  match state a with idle => false | _ => true end.

Definition reset (a : t) : t :=
  mk idle (parameters a) (sampleRate a) 0 (attackRate a) (decayRate a) (releaseRate a).

Definition withState (s : State) (val : R) (a : t) : t :=
  mk s (parameters a) (sampleRate a) val (attackRate a) (decayRate a) (releaseRate a).

Definition noteOn (a : t) : t :=
  if Rgt_dec (attackRate a) 0 then withState attack (envelopeVal a) a
  else if Rgt_dec (decayRate a) 0 then withState decay 1 a
       else withState sustain (p_sustain (parameters a)) a.

Definition noteOff (a : t) : t :=
  match state a with
  | idle => a
  | _ =>
      if Rgt_dec (p_release (parameters a)) 0 then
        mk release (parameters a) (sampleRate a) (envelopeVal a)
           (attackRate a) (decayRate a)
           (envelopeVal a / (p_release (parameters a) * sampleRate a))
      else reset a
  end.

Definition goToNextState (a : t) : t :=
  match state a with
  | attack =>
      withState (if Rgt_dec (decayRate a) 0 then decay else sustain) (envelopeVal a) a
  | decay => withState sustain (envelopeVal a) a
  | release => reset a
  | _ => a
  end.

Definition getNextSample (a : t) : R * t :=
  match state a with
  | idle => (0, a)
  | attack =>
      let val := envelopeVal a + attackRate a in
      let a' :=
        if Rge_dec val 1 then goToNextState (withState attack 1 a)
        else withState attack val a in
      (envelopeVal a', a')
  | decay =>
      let val := envelopeVal a - decayRate a in
      let a' :=
        if Rle_dec val (p_sustain (parameters a))
        then goToNextState (withState decay (p_sustain (parameters a)) a)
        else withState decay val a in
      (envelopeVal a', a')
  | sustain =>
      let a' := withState sustain (p_sustain (parameters a)) a in
      (envelopeVal a', a')
  | release =>
      let val := envelopeVal a - releaseRate a in
      let a' :=
        if Rle_dec val 0 then goToNextState (withState release val a)
        else withState release val a in
      (envelopeVal a', a')
  end.

Definition getRate (distance timeInSeconds sr : R) : R :=
  if Rgt_dec timeInSeconds 0 then distance / (timeInSeconds * sr) else -1.

(** An idle envelope with the given parameters at the given sample rate. *)
Definition make (p : Parameters) (sr : R) : t :=
  mk idle p sr 0
     (getRate 1 (p_attack p) sr)
     (getRate (1 - p_sustain p) (p_decay p) sr)
     (getRate (p_sustain p) (p_release p) sr).

End JuceADSR.

#[global] Instance JuceADSR_ADSR : Juce.ADSR JuceADSR.t := {
  Juce.noteOn := JuceADSR.noteOn;
  Juce.noteOff := JuceADSR.noteOff;
  Juce.isActive := JuceADSR.isActive;
  Juce.getNextSample := JuceADSR.getNextSample
}.

(** [juce::dsp::StateVariableTPTFilter<float>] of type low-pass. *)
Module JuceFilter.

Record t := mk {
  cutoffFrequency : R;
  resonance : R;
  sampleRate : R;
  g : R;
  h : R;
  R2 : R;
  s1 : list R;
  s2 : list R
}.

Definition update (f : t) : t :=
  let g := tan (PI * cutoffFrequency f / sampleRate f) in
  let R2 := 1 / resonance f in
  let h := 1 / (1 + R2 * g + g * g) in
  mk (cutoffFrequency f) (resonance f) (sampleRate f) g h R2 (s1 f) (s2 f).

Definition setCutoffFrequency (newCutoffFrequencyHz : R) (f : t) : t :=
  update (mk newCutoffFrequencyHz (resonance f) (sampleRate f)
             (g f) (h f) (R2 f) (s1 f) (s2 f)).

Definition setResonance (newResonance : R) (f : t) : t :=
  update (mk (cutoffFrequency f) newResonance (sampleRate f)
             (g f) (h f) (R2 f) (s1 f) (s2 f)).

Definition processSample (channel : Z) (inputValue : R) (f : t) : R * t :=
  let c := Z.to_nat channel in
  let ls1 := nth c (s1 f) 0 in
  let ls2 := nth c (s2 f) 0 in
  let yHP := h f * (inputValue - ls1 * (g f + R2 f) - ls2) in
  let yBP := yHP * g f + ls1 in
  let ls1 := yHP * g f + yBP in
  let yLP := yBP * g f + ls2 in
  let ls2 := yBP * g f + yLP in
  (yLP, mk (cutoffFrequency f) (resonance f) (sampleRate f) (g f) (h f) (R2 f)
           (replace_nth c ls1 (s1 f)) (replace_nth c ls2 (s2 f))).

(** A filter prepared for two channels, state cleared. *)
Definition make (cutoff res sr : R) : t :=
  update (mk cutoff res sr 0 0 0 [0; 0] [0; 0]).

End JuceFilter.

#[global] Instance JuceFilter_Filter : Juce.Filter JuceFilter.t := {
  Juce.setCutoffFrequency := JuceFilter.setCutoffFrequency;
  Juce.setResonance := JuceFilter.setResonance;
  Juce.processSample := JuceFilter.processSample
}.

(** [juce::Random]: the 48-bit linear congruential generator. *)
Module JuceRandom.

Record t := mk { seed : Z }.

Definition nextInt (r : t) : Z * t :=
  let seed := Z.land (seed r * 25214903917 + 11) 281474976710655 in
  (Z.shiftr seed 16, mk seed).

(** [nextFloat]: the 32 bits of [nextInt] over 2^32, kept below one. *)
Definition nextFloat (r : t) : R * t :=
  let '(n, r) := nextInt r in
  let result := IZR n / 4294967296 in
  (Rmin result (1 - / 8388608), r).

End JuceRandom.

#[global] Instance JuceRandom_Random : Juce.Random JuceRandom.t := {
  Juce.nextFloat := JuceRandom.nextFloat
}.

(** An envelope as the constructor of [juce::ADSR] leaves it. *)
Definition newEnvelope (sr : R) : JuceADSR.t :=
  JuceADSR.make (JuceADSR.mkParameters 0.1 0.1 1 0.1) sr.

(** A voice as the processor creates it ([new SynthVoice ()], then
    [prepareVoice]) at the given sample rate, before any parameter update. *)
Definition newVoice (sr : R)
  : SynthVoice.t JuceADSR.t JuceFilter.t :=
  SynthVoice.mk UnisonOscillator.init 0 0 44100
    (newEnvelope sr) (newEnvelope sr)
    (JuceFilter.make 1000 (1 / sqrt 2) sr)
    1000 0.7 0 false 0.3 VintageProcessor.init (-1) sr.

(** A filter whose integrators hold zero on every channel. *)
Definition quiet (f : JuceFilter.t) : Prop :=
  Forall (fun x => x = 0) (JuceFilter.s1 f) /\ Forall (fun x => x = 0) (JuceFilter.s2 f).


(* ================================================================= *)
(** ** PluginProcessor.cpp: the perceptual compensation of [processBlock] *)

(** Step 5.5 of [SYNTH_1AudioProcessor::processBlock]: every channel of the
    rendered buffer goes through three second-order sections in series (a
    high-pass at 40 Hz, a low shelf at 200 Hz, a peak at 4 kHz) and a gain
    of 0.92.  The memories of the sections are the [static] arrays of the
    function, one cell per channel. *)
Module FletcherMunson.

(** The memory of one section for one channel: the cells [x1], [x2], [y1]
    and [y2] of its four arrays. *)
Record Biquad := mkBiquad { x1 : R; x2 : R; y1 : R; y2 : R }.

(** One section: the output, then the shift of the memory. *)
Definition biquad (b0 b1 b2 a1 a2 : R) (s : Biquad) (input : R) : R * Biquad :=
  let out := b0 * input + b1 * x1 s + b2 * x2 s - a1 * y1 s - a2 * y2 s in
  (out, mkBiquad input (x1 s) out (y1 s)).

Record ChannelState := mkChannel { hp : Biquad; shelf : Biquad; peak : Biquad }.

(** The arrays as they are initialised: [{0}]. *)
Definition atRest : ChannelState :=
  mkChannel (mkBiquad 0 0 0 0) (mkBiquad 0 0 0 0) (mkBiquad 0 0 0 0).

(** The body of the loop over the samples of one channel. *)
Definition processSample (st : ChannelState) (sample : R) : R * ChannelState :=
  let '(hp_out, hp') :=
    biquad 0.99114 (-1.98223) 0.99114 (-1.98223) 0.98229 (hp st) sample in
  let '(shelf_out, shelf') :=
    biquad 0.97067 (-1.93477) 0.96704 (-1.93477) 0.93772 (shelf st) hp_out in
  let '(peak_out, peak') :=
    biquad 1.03159 (-1.74453) 0.73704 (-1.74453) 0.76863 (peak st) shelf_out in
  (peak_out * 0.92, mkChannel hp' shelf' peak').

(** The loop over the samples of one channel, written in place. *)
Fixpoint processChannel (st : ChannelState) (channelData : list R)
    : list R * ChannelState :=
  match channelData with
  | [] => ([], st)
  | sample :: rest =>
      let '(out, st) := processSample st sample in
      let '(outs, st) := processChannel st rest in
      (out :: outs, st)
  end.

(** The loop over the channels.  The arrays have two cells: the channels
    past them (none in the stereo layout that the plugin accepts) are left
    as they are here. *)
Fixpoint processChannels (states : list ChannelState) (buffer : AudioBuffer.t)
    : AudioBuffer.t * list ChannelState :=
  match states, buffer with
  | st :: states', channelData :: buffer' =>
      let '(channelData, st) := processChannel st channelData in
      let '(buffer', states') := processChannels states' buffer' in
      (channelData :: buffer', st :: states')
  | _, _ => (buffer, states)
  end.

End FletcherMunson.

(* ================================================================= *)
(** ** SpectrumAnalyzer.h: the FIFO of the analyser *)

Module SpectrumAnalyzer.

Definition fftOrder : Z := 11.
Definition fftSize : Z := Z.shiftl 1 fftOrder.
Definition scopeSize : Z := 512.

Record t := mk {
  fifo : list R;
  fftData : list R;
  scopeData : list R;
  fifoIndex : Z;
  nextFFTBlockReady : bool
}.

(** The constructor: the three arrays filled with zeros. *)
Definition init : t :=
  mk (repeat 0 (Z.to_nat fftSize)) (repeat 0 (Z.to_nat (fftSize * 2)))
     (repeat 0 (Z.to_nat scopeSize)) 0 false.

(** The value of [scopeData[i]] in the loop over the bins, for a spectrum
    of numbers: a NaN bin would go through [juce::jlimit] as it is. *)
Definition scopeLevel (fftData : list R) (i : Z) : R :=
  let skewedProportionX := 1 - exp (ln (1 - IZR i / IZR scopeSize) * 0.2) in
  let fftDataIndex :=
    Juce.jlimitZ 0 (Z.quot fftSize 2) (Rtrunc (skewedProportionX * IZR fftSize * 0.5)) in
  let rawValue := nth (Z.to_nat fftDataIndex) fftData 0 in
  let level := Juce.jlimit 0 1 (rawValue * 2) in
  level.

Section WithTransform.

(** The Hann window followed by the frequency-only forward transform of
    JUCE, on the array [fftData]. *)
Variable transform : list R -> list R.

(** [pushNextSampleIntoFifo], run to its end without interference from the
    thread that paints. *)
Definition pushNextSampleIntoFifo (sample : R) (a : t) : t :=
  let index := fifoIndex a in
  let a :=
    if (index <? fftSize)%Z
    then mk (replace_nth (Z.to_nat index) sample (fifo a)) (fftData a) (scopeData a)
            (index + 1) (nextFFTBlockReady a)
    else a in
  if (fftSize - 1 <=? index)%Z then
    let a :=
      if nextFFTBlockReady a then a
      else
        let fftData := transform (fifo a ++ repeat 0 (Z.to_nat fftSize)) in
        let scopeData :=
          forLoop (cellwise (fun i _ => scopeLevel fftData i))
            (Z.to_nat scopeSize) 0%Z (scopeData a) in
        mk (fifo a) fftData scopeData (fifoIndex a) true in
    mk (fifo a) (fftData a) (scopeData a) 0 (nextFFTBlockReady a)
  else a.

(** The loop of [processBlock] that feeds the analyser with one channel. *)
Definition feed (channelData : list R) (a : t) : t :=
  fold_left (fun a sample => pushNextSampleIntoFifo sample a) channelData a.

End WithTransform.

End SpectrumAnalyzer.

(* ================================================================= *)
(** ** Notions used to state the properties *)

(** An oscillator in its steady state below half the Nyquist frequency. *)
Definition steady (o : Oscillator.t) : Prop :=
  0 <= Oscillator.currentPhase o < 1 /\ 0 <= Oscillator.phaseDelta o <= 0.25.

(** The sample of channel [c] at position [i], when the buffer has one. *)
Definition sampleAt (b : AudioBuffer.t) (c i : nat) : option R :=
  nth_error (nth c b []) i.

(** What [addSample (destChannel, destSample, x)] adds at [(c, i)]. *)
Definition added (destChannel destSample : Z) (x : R) (c i : nat) : R :=
  if (Z.eqb (Z.of_nat c) destChannel && Z.eqb (Z.of_nat i) destSample)%bool
  then x else 0.

(** The settings of a voice that rendering leaves alone. *)
Definition sameSettings {E F : Type} (v v' : SynthVoice.t E F) : Prop :=
  SynthVoice.level v' = SynthVoice.level v
  /\ SynthVoice.currentFrequency v' = SynthVoice.currentFrequency v
  /\ SynthVoice.currentSampleRate v' = SynthVoice.currentSampleRate v
  /\ SynthVoice.baseCutoff v' = SynthVoice.baseCutoff v
  /\ SynthVoice.filterResonance v' = SynthVoice.filterResonance v
  /\ SynthVoice.filterEnvAmount v' = SynthVoice.filterEnvAmount v
  /\ SynthVoice.noiseEnabled v' = SynthVoice.noiseEnabled v
  /\ SynthVoice.noiseLevel v' = SynthVoice.noiseLevel v
  /\ SynthVoice.vintageProcessor v' = SynthVoice.vintageProcessor v
  /\ SynthVoice.sampleRate v' = SynthVoice.sampleRate v
  /\ UnisonOscillator.numVoices (SynthVoice.oscillator v')
     = UnisonOscillator.numVoices (SynthVoice.oscillator v)
  /\ UnisonOscillator.detuneAmount (SynthVoice.oscillator v')
     = UnisonOscillator.detuneAmount (SynthVoice.oscillator v)
  /\ UnisonOscillator.stereoWidth (SynthVoice.oscillator v')
     = UnisonOscillator.stereoWidth (SynthVoice.oscillator v).

(** The memories of the compensation, scaled and added cell by cell. *)
Definition scaleBiquad (k : R) (s : FletcherMunson.Biquad) : FletcherMunson.Biquad :=
  FletcherMunson.mkBiquad
    (k * FletcherMunson.x1 s) (k * FletcherMunson.x2 s)
    (k * FletcherMunson.y1 s) (k * FletcherMunson.y2 s).

Definition addBiquad (s s' : FletcherMunson.Biquad) : FletcherMunson.Biquad :=
  FletcherMunson.mkBiquad
    (FletcherMunson.x1 s + FletcherMunson.x1 s') (FletcherMunson.x2 s + FletcherMunson.x2 s')
    (FletcherMunson.y1 s + FletcherMunson.y1 s') (FletcherMunson.y2 s + FletcherMunson.y2 s').

Definition scaleState (k : R) (st : FletcherMunson.ChannelState) : FletcherMunson.ChannelState :=
  FletcherMunson.mkChannel
    (scaleBiquad k (FletcherMunson.hp st)) (scaleBiquad k (FletcherMunson.shelf st))
    (scaleBiquad k (FletcherMunson.peak st)).

Definition addState (st st' : FletcherMunson.ChannelState) : FletcherMunson.ChannelState :=
  FletcherMunson.mkChannel
    (addBiquad (FletcherMunson.hp st) (FletcherMunson.hp st'))
    (addBiquad (FletcherMunson.shelf st) (FletcherMunson.shelf st'))
    (addBiquad (FletcherMunson.peak st) (FletcherMunson.peak st')).

(** Two signals added sample by sample, as far as both go. *)
Fixpoint addSignals (xs ys : list R) : list R :=
  match xs, ys with
  | x :: xs', y :: ys' => (x + y) :: addSignals xs' ys'
  | _, _ => []
  end.

(** The analyser's arrays have their sizes, its index is inside the FIFO
    and the levels to paint are in [[0, 1]]. *)
Definition analyserInvariant (a : SpectrumAnalyzer.t) : Prop :=
  length (SpectrumAnalyzer.fifo a) = Z.to_nat SpectrumAnalyzer.fftSize
  /\ length (SpectrumAnalyzer.scopeData a) = Z.to_nat SpectrumAnalyzer.scopeSize
  /\ (0 <= SpectrumAnalyzer.fifoIndex a < SpectrumAnalyzer.fftSize)%Z
  /\ Forall (fun x => 0 <= x <= 1) (SpectrumAnalyzer.scopeData a).


(* ################################################################# *)
(** * Part II: properties *)

(** ** Arithmetic helpers *)

Lemma div_unit_interval (t dt : R) :
  0 <= t -> t < dt -> 0 <= t / dt < 1 /\ t = (t / dt) * dt.
Proof.
  intros Ht Hlt.
  assert (Hdt : 0 < dt) by lra.
  split; [split|].
  - apply Rmult_le_pos; [lra | left; apply Rinv_0_lt_compat; lra].
  - apply (Rmult_lt_reg_r dt); [lra|].
    unfold Rdiv. rewrite Rmult_assoc, Rinv_l by lra. lra.
  - field. lra.
Qed.

Lemma div_neg_unit_interval (t dt : R) :
  t < 1 -> 1 - dt < t -> -1 < (t - 1) / dt < 0 /\ t - 1 = ((t - 1) / dt) * dt.
Proof.
  intros Ht Hlt.
  assert (Hdt : 0 < dt) by lra.
  assert (Hi : 0 < / dt) by (apply Rinv_0_lt_compat; lra).
  split; [split|].
  - apply (Rmult_lt_reg_r dt); [lra|].
    unfold Rdiv. rewrite Rmult_assoc, Rinv_l by lra. lra.
  - apply (Rmult_lt_reg_r dt); [lra|].
    unfold Rdiv. rewrite Rmult_assoc, Rinv_l by lra. lra.
  - field. lra.
Qed.

Lemma Rtrunc_unit (x : R) : 0 <= x < 1 -> Rtrunc x = 0%Z.
Proof.
  intros Hx. unfold Rtrunc.
  destruct (Rle_dec 0 x) as [_|Hn]; [|lra].
  symmetry. apply Int_part_spec. simpl. lra.
Qed.

Lemma Rtrunc_one (x : R) : 1 <= x < 2 -> Rtrunc x = 1%Z.
Proof.
  intros Hx. unfold Rtrunc.
  destruct (Rle_dec 0 x) as [_|Hn]; [|lra].
  symmetry. apply Int_part_spec. simpl. lra.
Qed.

(** [fmod (phase + 0.5, 1.0)] for a phase in [[0, 1)]. *)
Lemma fmod_half (t : R) :
  0 <= t < 1 ->
  fmod (t + 0.5) 1 = if Rlt_dec t 0.5 then t + 0.5 else t - 0.5.
Proof.
  intros Ht. unfold fmod.
  replace ((t + 0.5) / 1) with (t + 0.5) by field.
  destruct (Rlt_dec t 0.5).
  - rewrite Rtrunc_unit by lra. simpl. lra.
  - rewrite Rtrunc_one by lra. simpl. lra.
Qed.

(** ** Arrays and counted loops *)

Lemma forLoop_invariant {S : Type} (P : S -> Prop) (body : Z -> S -> S) :
  (forall i s, P s -> P (body i s)) ->
  forall count i s, P s -> P (forLoop body count i s).
Proof.
  intros Hbody count. induction count as [|c IH]; intros i s Hs; simpl.
  - exact Hs.
  - apply IH. apply Hbody. exact Hs.
Qed.

Lemma replace_nth_length {A : Type} (i : nat) (x : A) (l : list A) :
  length (replace_nth i x l) = length l.
Proof.
  revert i. induction l as [|h t IH]; intros [|i]; simpl; try reflexivity.
  rewrite IH. reflexivity.
Qed.

Lemma nth_error_replace_nth_same {A : Type} (i : nat) (x : A) (l : list A) :
  (i < length l)%nat -> nth_error (replace_nth i x l) i = Some x.
Proof.
  revert i. induction l as [|h t IH]; intros [|i] Hi; simpl in *; try lia.
  - reflexivity.
  - apply IH. lia.
Qed.

Lemma nth_error_replace_nth_other {A : Type} (i j : nat) (x : A) (l : list A) :
  i <> j -> nth_error (replace_nth i x l) j = nth_error l j.
Proof.
  revert i j. induction l as [|h t IH]; intros [|i] [|j] Hij; simpl;
    try reflexivity; try congruence.
  apply IH. congruence.
Qed.

Lemma cellwise_length {A : Type} (f : Z -> A -> A) (i : Z) (l : list A) :
  length (cellwise f i l) = length l.
Proof.
  unfold cellwise. destruct (nth_error l (Z.to_nat i)); [|reflexivity].
  apply replace_nth_length.
Qed.

Lemma forLoop_cellwise_length {A : Type} (f : Z -> A -> A) (count : nat) (i : Z)
    (l : list A) :
  length (forLoop (cellwise f) count i l) = length l.
Proof.
  revert i l. induction count as [|c IH]; intros i l; simpl; [reflexivity|].
  rewrite IH. apply cellwise_length.
Qed.

(** The loop leaves the cells below its first index alone. *)
Lemma forLoop_cellwise_below {A : Type} (f : Z -> A -> A) (count : nat) (i : Z)
    (l : list A) (j : nat) :
  (0 <= i)%Z -> (Z.of_nat j < i)%Z ->
  nth_error (forLoop (cellwise f) count i l) j = nth_error l j.
Proof.
  revert i l. induction count as [|c IH]; intros i l Hi Hj; simpl; [reflexivity|].
  rewrite IH by lia. unfold cellwise.
  destruct (nth_error l (Z.to_nat i)); [|reflexivity].
  apply nth_error_replace_nth_other. lia.
Qed.

(** Cell [j] of the array after the loop, for [j] among its indices. *)
Lemma forLoop_cellwise_at {A : Type} (f : Z -> A -> A) (count : nat) (i : Z)
    (l : list A) (j : nat) (a : A) :
  (0 <= i)%Z -> (i <= Z.of_nat j < i + Z.of_nat count)%Z ->
  nth_error l j = Some a ->
  nth_error (forLoop (cellwise f) count i l) j = Some (f (Z.of_nat j) a).
Proof.
  revert i l. induction count as [|c IH]; intros i l Hi Hj Ha; [lia|].
  simpl. destruct (Z.eq_dec i (Z.of_nat j)) as [E|E].
  - rewrite forLoop_cellwise_below by lia.
    unfold cellwise. subst i. rewrite Nat2Z.id, Ha.
    apply nth_error_replace_nth_same.
    apply nth_error_Some. congruence.
  - apply IH; [lia | lia |].
    unfold cellwise. destruct (nth_error l (Z.to_nat i)); [|exact Ha].
    rewrite nth_error_replace_nth_other by lia. exact Ha.
Qed.

(* ================================================================= *)
(** ** The oscillator *)

Module OscillatorProps.
Import Oscillator.

(** The correction of polyBLEP near the start of the cycle. *)
Lemma polyBlep_low (t dt : R) :
  0 <= t -> t < dt ->
  exists u, 0 <= u < 1 /\ t = u * dt /\ polyBlep t dt = - ((1 - u) * (1 - u)).
Proof.
  intros Ht Hlt. exists (t / dt).
  destruct (div_unit_interval t dt Ht Hlt) as [Hu Ht'].
  split; [exact Hu|]. split; [exact Ht'|].
  unfold polyBlep. destruct (Rlt_dec t dt); [|lra]. simpl. ring.
Qed.

(** The correction of polyBLEP near the end of the cycle. *)
Lemma polyBlep_high (t dt : R) :
  t < 1 -> ~ t < dt -> 1 - dt < t ->
  exists u, -1 < u < 0 /\ t - 1 = u * dt /\ polyBlep t dt = (1 + u) * (1 + u).
Proof.
  intros Ht Hn Hlt. exists ((t - 1) / dt).
  destruct (div_neg_unit_interval t dt Ht Hlt) as [Hu Ht'].
  split; [exact Hu|]. split; [exact Ht'|].
  unfold polyBlep. destruct (Rlt_dec t dt); [lra|].
  destruct (Rgt_dec t (1 - dt)); [|lra]. simpl. ring.
Qed.

(** No correction away from the discontinuity. *)
Lemma polyBlep_mid (t dt : R) :
  ~ t < dt -> ~ 1 - dt < t -> polyBlep t dt = 0.
Proof.
  intros H1 H2. unfold polyBlep.
  destruct (Rlt_dec t dt); [lra|].
  destruct (Rgt_dec t (1 - dt)); [lra|]. reflexivity.
Qed.

(** The three cases of [polyBlep] on a phase in [[0, 1)]. *)
Lemma polyBlep_cases (t dt : R) :
  0 <= t < 1 ->
  (t < dt /\ exists u, 0 <= u < 1 /\ t = u * dt
                        /\ polyBlep t dt = - ((1 - u) * (1 - u)))
  \/ (~ t < dt /\ 1 - dt < t /\ exists u, -1 < u < 0 /\ t - 1 = u * dt
                        /\ polyBlep t dt = (1 + u) * (1 + u))
  \/ (~ t < dt /\ ~ 1 - dt < t /\ polyBlep t dt = 0).
Proof.
  intros [H0 H1].
  destruct (Rlt_dec t dt) as [Hl|Hl].
  - left. split; [exact Hl|]. apply polyBlep_low; assumption.
  - destruct (Rlt_dec (1 - dt) t) as [Hh|Hh].
    + right; left. split; [exact Hl|]. split; [exact Hh|].
      apply polyBlep_high; assumption.
    + right; right. split; [exact Hl|]. split; [exact Hh|].
      apply polyBlep_mid; assumption.
Qed.

Lemma saw_bounded (t dt : R) :
  0 <= t < 1 -> 0 <= dt <= 0.25 -> -1 <= waveform_sample Saw t dt <= 1.
Proof.
  intros Ht Hdt. simpl.
  destruct (polyBlep_cases t dt Ht)
    as [(Hl & u & Hu & Etu & ->) | [(Hl & Hh & u & Hu & Etu & ->) | (Hl & Hh & ->)]].
  - replace (2 * t) with (2 * (u * dt)) by (rewrite <- Etu; ring). nra.
  - replace (2 * t) with (2 * (1 + u * dt)) by (rewrite <- Etu; ring). nra.
  - lra.
Qed.

Lemma triangle_bounded (t dt : R) :
  0 <= t < 1 -> -1 <= waveform_sample Triangle t dt <= 1.
Proof.
  intros Ht. simpl. destruct (Rlt_dec t 0.5); lra.
Qed.

Lemma sine_bounded (t dt : R) : -1 <= waveform_sample Sine t dt <= 1.
Proof. simpl. apply SIN_bound. Qed.

Lemma square_bounded (t dt : R) :
  0 <= t < 1 -> 0 <= dt <= 0.25 -> -1 <= waveform_sample Square t dt <= 1.
Proof.
  intros Ht Hdt. simpl. rewrite (fmod_half t Ht).
  destruct (Rlt_dec t 0.5) as [Hhalf|Hhalf].
  - assert (Ht2 : 0 <= t + 0.5 < 1) by lra.
    destruct (polyBlep_cases t dt Ht)
      as [(Hl & u & Hu & Etu & ->) | [(Hl & Hh & u & Hu & Etu & ->) | (Hl & Hh & ->)]];
    destruct (polyBlep_cases (t + 0.5) dt Ht2)
      as [(Hl2 & u2 & Hu2 & Etu2 & ->) | [(Hl2 & Hh2 & u2 & Hu2 & Etu2 & ->) | (Hl2 & Hh2 & ->)]];
    try lra; nra.
  - assert (Ht2 : 0 <= t - 0.5 < 1) by lra.
    destruct (polyBlep_cases t dt Ht)
      as [(Hl & u & Hu & Etu & ->) | [(Hl & Hh & u & Hu & Etu & ->) | (Hl & Hh & ->)]];
    destruct (polyBlep_cases (t - 0.5) dt Ht2)
      as [(Hl2 & u2 & Hu2 & Etu2 & ->) | [(Hl2 & Hh2 & u2 & Hu2 & Etu2 & ->) | (Hl2 & Hh2 & ->)]];
    try lra; nra.
Qed.

(** One sample, whatever the waveform. *)
Lemma waveform_sample_bounded (w : OscillatorWaveform) (t dt : R) :
  0 <= t < 1 -> 0 <= dt <= 0.25 -> -1 <= waveform_sample w t dt <= 1.
Proof.
  intros Ht Hdt. destruct w.
  - apply sine_bounded.
  - apply saw_bounded; assumption.
  - apply square_bounded; assumption.
  - apply triangle_bounded; assumption.
Qed.

(** The wrap keeps the phase in [[0, 1)] when the increment is in [[0, 1)]. *)
Lemma advance_range (t dt : R) :
  0 <= t < 1 -> 0 <= dt < 1 -> 0 <= advance t dt < 1.
Proof.
  intros Ht Hdt. unfold advance. simpl.
  destruct (Rge_dec (t + dt) 1); lra.
Qed.

(** The wrap subtracts zero or one. *)
Lemma advance_wraps (t dt : R) :
  advance t dt = t + dt \/ advance t dt = t + dt - 1.
Proof.
  unfold advance. simpl. destruct (Rge_dec (t + dt) 1); [right|left]; reflexivity.
Qed.

Lemma getNextSample_delta (o : t) : phaseDelta (snd (getNextSample o)) = phaseDelta o.
Proof. reflexivity. Qed.

Lemma getNextSample_phase (o : t) :
  currentPhase (snd (getNextSample o)) = advance (currentPhase o) (phaseDelta o).
Proof. reflexivity. Qed.

Lemma run_S (n : nat) (o : t) :
  run (S n) o =
  (fst (getNextSample o) :: fst (run n (snd (getNextSample o))),
   snd (run n (snd (getNextSample o)))).
Proof.
  simpl. destruct (run n _) as [ss o2]. reflexivity.
Qed.

Lemma run_delta (n : nat) (o : t) : phaseDelta (snd (run n o)) = phaseDelta o.
Proof.
  revert o. induction n as [|n IH]; intros o; [reflexivity|].
  rewrite run_S. simpl. rewrite IH. reflexivity.
Qed.

(** [run] one call at a time, from the other end. *)
Lemma run_snoc (n : nat) (o : t) :
  snd (run (S n) o) = snd (getNextSample (snd (run n o))).
Proof.
  revert o. induction n as [|n IH]; intros o.
  - reflexivity.
  - rewrite run_S. cbn [snd]. rewrite IH. rewrite (run_S n o). reflexivity.
Qed.

(** In exact arithmetic the formulas of [getNextSample] stay in range: for
    every waveform and every phase increment in [[0, 0.25]], every sample
    of a sequence of calls that starts with a phase in [[0, 1)] lies in
    [[-1, 1]], the polyBLEP corrections of Saw and Square included.  This
    is what the code computes when no rounding interferes; for the square
    wave one does, see [OscillatorIEEEProps]. *)
Lemma exact_samples_in_unit_range (n : nat) (o : t) :
  0 <= currentPhase o < 1 -> 0 <= phaseDelta o <= 0.25 ->
  Forall (fun s => -1 <= s <= 1) (fst (run n o)).
Proof.
  revert o. induction n as [|n IH]; intros o Hp Hd.
  - constructor.
  - rewrite run_S. cbn [fst]. constructor.
    + apply waveform_sample_bounded; assumption.
    + apply IH.
      * rewrite getNextSample_phase. apply advance_range; lra.
      * rewrite getNextSample_delta. exact Hd.
Qed.

(** C2, as amended: starting with a phase in [[0, 1)] and with a phase
    increment in [[0, 1)], the phase is in [[0, 1)] after every call to
    [getNextSample], and after [n] calls it is the exact sum
    [phase + n * phaseDelta] minus a whole number of cycles: the wrap adds
    no drift. *)
Theorem phase_stays_wrapped (n : nat) (o : t) :
  0 <= currentPhase o < 1 -> 0 <= phaseDelta o < 1 ->
  0 <= currentPhase (snd (run n o)) < 1
  /\ exists k : Z, (0 <= k <= Z.of_nat n)%Z
       /\ currentPhase (snd (run n o))
          = currentPhase o + INR n * phaseDelta o - IZR k.
Proof.
  intros Hp Hd. induction n as [|n [IHr (k & Hk & IHe)]].
  - split; [exact Hp|]. exists 0%Z. split; [lia|]. simpl. lra.
  - rewrite run_snoc, getNextSample_phase, run_delta.
    split; [apply advance_range; assumption|].
    destruct (advance_wraps (currentPhase (snd (run n o))) (phaseDelta o)) as [E|E];
      rewrite E, IHe, S_INR.
    + exists k. split; [lia|]. ring.
    + exists (k + 1)%Z. split; [lia|]. rewrite plus_IZR. ring.
Qed.

Lemma phase_stays_wrapped_witness :
  let o := setFrequency 440 44100 init in
  (0 <= currentPhase o < 1) /\ (0 <= phaseDelta o < 1)
  /\ 0 <= currentPhase (snd (run 3 o)) < 1.
Proof.
  intros o.
  assert (Hp : 0 <= currentPhase o < 1) by (simpl; lra).
  assert (Hd : 0 <= phaseDelta o < 1) by (simpl; lra).
  split; [exact Hp|]. split; [exact Hd|].
  exact (proj1 (phase_stays_wrapped 3 o Hp Hd)).
Defined.

(** C2, as stated, fails: at 12000 Hz and a sample rate of 8000 Hz the
    increment is 1.5, one subtraction does not bring the phase back, and
    after the second call the phase is 1. *)
Lemma phase_escapes_unit_interval :
  let o := setFrequency 12000 8000 init in
  currentPhase (snd (run 2 o)) = 1
  /\ ~ (0 <= currentPhase (snd (run 2 o)) < 1).
Proof.
  intros o.
  assert (E : currentPhase (snd (run 2 o)) = 1).
  { simpl. unfold advance. simpl.
    destruct (Rge_dec (0 + 12000 / 8000) 1) as [_|Hn]; [|exfalso; lra].
    destruct (Rge_dec (0 + 12000 / 8000 - 1 + 12000 / 8000) 1) as [_|Hn];
      [lra | exfalso; lra]. }
  split; [exact E|]. rewrite E. lra.
Qed.

End OscillatorProps.

(* ================================================================= *)
(** ** The oscillator on the machine numbers *)

Module OscillatorIEEEProps.
Import OscillatorDouble OscillatorIEEE.

(** At a quarter of the sample rate, 11025 Hz at 44100 Hz, the square wave
    is in range: its first four samples are 0, 1, 0 and -1. *)
Lemma square_at_quarter_rate (std_sin : double -> double) :
  let o := setFrequency (ofZ 11025) (ofZ 44100)
             (setWaveform Oscillator.Square init) in
  phaseDelta o = ofDyadic 1 (-2)
  /\ fst (run std_sin 4 o) = [fzero; fone; fzero; SFopp fone].
Proof. intros o. vm_compute. split; reflexivity. Qed.

(** C1 fails on the code: one double below, at 11024.999999999998 Hz
    ([6061057848115199 * 2^-39]) for 44100 Hz, the phase increment is the
    double [0.25 - 2^-55], inside the steady-state range [[0, 0.25]]; after
    two calls the phase is [0.5 - 2^-54], the last double below one half.
    The third call takes the sign [+1] of the first half of the cycle, and
    [currentPhase + 0.5] rounds up to [1.0], which [fmod] wraps to [0]: the
    correction of the transition at the start of the cycle, [-1], is
    subtracted where that of the transition at one half was meant, and the
    sample is [2.0], outside [[-1, 1]]. *)
Theorem square_sample_leaves_unit_range (std_sin : double -> double) :
  let o := setFrequency (ofDyadic 6061057848115199 (-39)) (ofZ 44100)
             (setWaveform Oscillator.Square init) in
  phaseDelta o = ofDyadic 9007199254740991 (-55)
  /\ SFleb zero (phaseDelta o) = true
  /\ SFleb (phaseDelta o) (ofDyadic 1 (-2)) = true
  /\ currentPhase (snd (run std_sin 2 o)) = ofDyadic 9007199254740991 (-54)
  /\ SFltb (currentPhase (snd (run std_sin 2 o))) half = true
  /\ add (currentPhase (snd (run std_sin 2 o))) half = one
  /\ polyBlep (fmod one one) (phaseDelta o) = SFopp fone
  /\ fst (run std_sin 3 o) = [fzero; fone; ftwo]
  /\ SFltb fone (nth 2 (fst (run std_sin 3 o)) fzero) = true.
Proof. intros o. vm_compute. repeat split. Qed.

End OscillatorIEEEProps.


(* ================================================================= *)
(** ** The unison bank *)

Module UnisonProps.
Import UnisonOscillator.

Lemma setFrequency_body_cellwise (frequency sampleRate : R) (nv : Z) (d : R) :
  setFrequency_body frequency sampleRate nv d
  = cellwise (fun i o =>
      Oscillator.setFrequency (frequency * voiceDetune nv d i) sampleRate o).
Proof. reflexivity. Qed.

(** What [setFrequency] stores in the sub-oscillator of each voice in use. *)
Lemma setFrequency_voice (frequency sampleRate : R) (u : t) (i : nat)
    (o : Oscillator.t) :
  (Z.of_nat i < numVoices u)%Z ->
  nth_error (oscillators u) i = Some o ->
  nth_error (oscillators (setFrequency frequency sampleRate u)) i
  = Some (Oscillator.setFrequency
            (frequency * voiceDetune (numVoices u) (detuneAmount u) (Z.of_nat i))
            sampleRate o).
Proof.
  intros Hi Ho. unfold setFrequency. cbn [oscillators].
  rewrite setFrequency_body_cellwise.
  apply (forLoop_cellwise_at
           (fun i o => Oscillator.setFrequency
                         (frequency * voiceDetune (numVoices u) (detuneAmount u) i)
                         sampleRate o)); [lia | lia | exact Ho].
Qed.

(** With two voices or more, the factor is the ratio of the detune in cents. *)
Lemma voiceDetune_many (nv : Z) (d : R) (i : Z) :
  (2 <= nv)%Z ->
  voiceDetune nv d i = Rpower 2 (IZR (i - Z.quot nv 2) * d * 15 / 1200).
Proof.
  intros Hnv. unfold voiceDetune.
  destruct (Z.ltb_spec 1 nv); [reflexivity | lia].
Qed.

(** With a single voice, the factor keeps its initial value. *)
Lemma voiceDetune_single (d : R) (i : Z) : voiceDetune 1 d i = 0.
Proof. reflexivity. Qed.

Lemma Rpower_2_0 : Rpower 2 0 = 1.
Proof. apply Rpower_O. lra. Qed.

(** Two voices or more and no detune: every voice in use is at the base
    frequency. *)
Lemma setFrequency_zero_detune (frequency sampleRate : R) (u : t) (i : nat)
    (o : Oscillator.t) :
  (2 <= numVoices u)%Z -> detuneAmount u = 0 ->
  (Z.of_nat i < numVoices u)%Z ->
  nth_error (oscillators u) i = Some o ->
  nth_error (oscillators (setFrequency frequency sampleRate u)) i
  = Some (Oscillator.setFrequency frequency sampleRate o).
Proof.
  intros Hnv Hd Hi Ho.
  rewrite (setFrequency_voice frequency sampleRate u i o Hi Ho).
  rewrite voiceDetune_many by exact Hnv. rewrite Hd.
  replace (IZR (Z.of_nat i - Z.quot (numVoices u) 2) * 0 * 15 / 1200) with 0
    by (unfold Rdiv; ring).
  rewrite Rpower_2_0, Rmult_1_r. reflexivity.
Qed.

(** The constructor establishes the class invariant, the setters and
    [setFrequency] keep it. *)
Lemma wf_init : wf init.
Proof. split; [reflexivity | unfold maxVoices; simpl; lia]. Qed.

Lemma wf_setNumVoices (num : Z) (u : t) : wf u -> wf (setNumVoices num u).
Proof.
  intros [Hl _]. split; [exact Hl|]. cbn [setNumVoices numVoices].
  unfold Juce.jlimitZ, maxVoices.
  destruct (Z.ltb_spec num 1); [lia|]. destruct (Z.ltb_spec 7 num); lia.
Qed.

Lemma wf_setFrequency (frequency sampleRate : R) (u : t) :
  wf u -> wf (setFrequency frequency sampleRate u).
Proof.
  intros [Hl Hn]. split; [|exact Hn].
  unfold setFrequency. cbn [oscillators].
  rewrite setFrequency_body_cellwise, forLoop_cellwise_length. exact Hl.
Qed.

(** Under the invariant every voice in use has its oscillator. *)
Lemma wf_voice (u : t) (i : nat) :
  wf u -> (Z.of_nat i < numVoices u)%Z ->
  exists o, nth_error (oscillators u) i = Some o.
Proof.
  intros [Hl Hn] Hi.
  destruct (nth_error (oscillators u) i) as [o|] eqn:E; [exists o; reflexivity|].
  apply nth_error_None in E. unfold maxVoices in *. lia.
Qed.

(** Two voices or more: voice [i] is set to the base frequency times
    [2^(cents / 1200)], with [cents = (i - numVoices / 2) * detuneAmount * 15]
    and the division of [numVoices] by 2 an integer division. *)
Lemma setFrequency_detuned (frequency sampleRate : R) (u : t) (i : nat) :
  wf u -> (2 <= numVoices u)%Z -> (Z.of_nat i < numVoices u)%Z ->
  exists o, nth_error (oscillators u) i = Some o
    /\ nth_error (oscillators (setFrequency frequency sampleRate u)) i
       = Some (Oscillator.setFrequency
                 (frequency
                  * Rpower 2 (IZR (Z.of_nat i - Z.quot (numVoices u) 2)
                              * detuneAmount u * 15 / 1200))
                 sampleRate o).
Proof.
  intros Hwf Hnv Hi. destruct (wf_voice u i Hwf Hi) as [o Ho].
  exists o. split; [exact Ho|].
  rewrite (setFrequency_voice frequency sampleRate u i o Hi Ho).
  rewrite voiceDetune_many by exact Hnv. reflexivity.
Qed.

(** C3 fails for a single voice: with [numVoices = 1] the local
    [voiceDetune], a frequency ratio, keeps its initial value 0, and
    [setFrequency] sets the only sub-oscillator to [frequency * 0], a phase
    increment of 0, in place of the base frequency. *)
Theorem setFrequency_single_voice_is_zero (frequency sampleRate : R) (u : t)
    (o : Oscillator.t) :
  numVoices u = 1%Z ->
  nth_error (oscillators u) 0 = Some o ->
  nth_error (oscillators (setFrequency frequency sampleRate u)) 0
  = Some (Oscillator.setFrequency 0 sampleRate o)
  /\ Oscillator.phaseDelta (Oscillator.setFrequency 0 sampleRate o) = 0.
Proof.
  intros Hnv Ho. split.
  - rewrite (setFrequency_voice frequency sampleRate u 0 o) by (rewrite ?Hnv; auto; lia).
    rewrite Hnv. simpl Z.of_nat. rewrite voiceDetune_single, Rmult_0_r. reflexivity.
  - simpl. unfold Rdiv. ring.
Qed.

Lemma setFrequency_single_voice_is_zero_witness :
  let u := setNumVoices 1 init in
  numVoices u = 1%Z
  /\ nth_error (oscillators u) 0 = Some Oscillator.init
  /\ nth_error (oscillators (setFrequency 440 44100 u)) 0
     = Some (Oscillator.setFrequency 0 44100 Oscillator.init).
Proof.
  intros u.
  assert (Hnv : numVoices u = 1%Z) by reflexivity.
  assert (Ho : nth_error (oscillators u) 0 = Some Oscillator.init) by reflexivity.
  split; [exact Hnv|]. split; [exact Ho|].
  exact (proj1 (setFrequency_single_voice_is_zero 440 44100 u Oscillator.init Hnv Ho)).
Defined.

Lemma pan_width_zero (nv : Z) (i : Z) : pan nv 0 i = 0.
Proof.
  unfold pan. destruct (1 <? nv)%Z; [|reflexivity]. simpl. ring.
Qed.

(** In the centre, the two gains of the constant-power law are equal. *)
Lemma centre_gains_equal : cos ((0 + 1) * 0.25 * PI) = sin ((0 + 1) * 0.25 * PI).
Proof.
  replace ((0 + 1) * 0.25 * PI) with (PI / 4) by lra.
  rewrite cos_PI4, sin_PI4. reflexivity.
Qed.

(** One voice more in the mix keeps the two sums equal. *)
Lemma mix_body_width_zero (nv : Z) (i : Z) (st : R * R * list Oscillator.t) :
  fst (fst st) = snd (fst st) ->
  fst (fst (mix_body nv 0 i st)) = snd (fst (mix_body nv 0 i st)).
Proof.
  destruct st as [[l r] oscs]. cbn [fst snd]. intros ->.
  unfold mix_body. destruct (nth_error oscs (Z.to_nat i)) as [o|]; [|reflexivity].
  destruct (Oscillator.getNextSample o) as [sample o'].
  cbn [fst snd]. rewrite pan_width_zero, centre_gains_equal. reflexivity.
Qed.

(** C4: when [stereoWidth] is 0, the left and the right component of the
    pair that [getNextSampleStereo] returns are equal, for every number of
    voices and every state of the sub-oscillators: each voice has pan 0 and
    so equal gains, and both sums are scaled by the same factor. *)
Theorem getNextSampleStereo_width_zero_mono (u : t) :
  stereoWidth u = 0 ->
  fst (fst (getNextSampleStereo u)) = snd (fst (getNextSampleStereo u)).
Proof.
  intros Hw. unfold getNextSampleStereo. rewrite Hw.
  pose proof (forLoop_invariant
                (fun st : R * R * list Oscillator.t => fst (fst st) = snd (fst st))
                (mix_body (numVoices u) 0)
                (mix_body_width_zero (numVoices u))
                (Z.to_nat (numVoices u)) 0%Z (0, 0, oscillators u) eq_refl) as Hinv.
  destruct (forLoop _ _ _ _) as [[l r] oscs]. cbn [fst snd] in *.
  rewrite Hinv. reflexivity.
Qed.

Lemma getNextSampleStereo_width_zero_mono_witness :
  let u := mk (oscillators init) 7 0.5 0 in
  stereoWidth u = 0
  /\ fst (fst (getNextSampleStereo u)) = snd (fst (getNextSampleStereo u)).
Proof.
  intros u.
  assert (Hw : stereoWidth u = 0) by reflexivity.
  split; [exact Hw|].
  exact (getNextSampleStereo_width_zero_mono u Hw).
Defined.

End UnisonProps.

(* ================================================================= *)
(** ** Oscillator::setFrequency and the sample rate *)

Module SampleRateProps.
Import OscillatorDouble.

(** A division by a zero of either sign never yields a finite double. *)
Lemma div_by_zero_not_finite (x : double) (s : bool) :
  isFinite (div x (S754_zero s)) = false.
Proof. destruct x; reflexivity. Qed.

(** C8, as amended: [setFrequency] stores the quotient
    [frequency / sampleRate] with no guard.  With a sample rate of zero (of
    either sign) the stored phase increment is never finite: an infinity
    for a frequency other than zero, NaN for a frequency of zero.  With a
    negative sample rate and a positive frequency the stored increment is
    negative.  Nothing is clamped and nothing is left unchanged. *)
Theorem setFrequency_is_unguarded :
  (forall (hz : double) (s : bool) (o : t),
      isFinite (phaseDelta (setFrequency hz (S754_zero s) o)) = false)
  /\ (forall (sx s : bool) (m : positive) (e : Z) (o : t),
      phaseDelta (setFrequency (S754_finite sx m e) (S754_zero s) o)
      = S754_infinity (xorb sx s))
  /\ (forall (sx s : bool) (o : t),
      phaseDelta (setFrequency (S754_zero sx) (S754_zero s) o) = S754_nan)
  /\ (forall (hz sr : R) (o : Oscillator.t),
      0 < hz -> sr < 0 ->
      Oscillator.phaseDelta (Oscillator.setFrequency hz sr o) < 0).
Proof.
  split; [|split; [|split]].
  - intros hz s o. apply div_by_zero_not_finite.
  - reflexivity.
  - reflexivity.
  - intros hz sr o Hhz Hsr. simpl.
    assert (Hi : / sr < 0) by (apply Rinv_lt_0_compat; exact Hsr).
    unfold Rdiv. nra.
Qed.

Lemma setFrequency_is_unguarded_witness :
  0 < 440 /\ -44100 < 0
  /\ Oscillator.phaseDelta (Oscillator.setFrequency 440 (-44100) Oscillator.init) < 0.
Proof.
  assert (Hhz : 0 < 440) by lra.
  assert (Hsr : -44100 < 0) by lra.
  split; [exact Hhz|]. split; [exact Hsr|].
  exact (proj2 (proj2 (proj2 setFrequency_is_unguarded))
           440 (-44100) Oscillator.init Hhz Hsr).
Defined.

(** C8, as stated, fails: 440 Hz at a sample rate of 0 stores an infinite
    phase increment. *)
Lemma setFrequency_zero_sample_rate :
  let o := setFrequency (ofZ 440) zero init in
  SFleb zero zero = true
  /\ isFinite (ofZ 440) = true
  /\ phaseDelta o = S754_infinity false
  /\ isFinite (phaseDelta o) = false.
Proof. vm_compute. repeat split. Qed.

End SampleRateProps.

(* ================================================================= *)
(** ** The post-processor *)

Module VintageProps.
Import VintageProcessor.

Lemma JuceRandom_nextFloat_range (r : JuceRandom.t) :
  0 <= fst (JuceRandom.nextFloat r) < 1.
Proof.
  unfold JuceRandom.nextFloat, JuceRandom.nextInt. cbn [fst].
  set (n := Z.shiftr _ 16).
  assert (Hn : (0 <= n)%Z).
  { unfold n. apply Z.shiftr_nonneg. apply Z.land_nonneg. right. lia. }
  assert (Hq : 0 <= IZR n / 4294967296).
  { apply Rmult_le_pos; [apply IZR_le; exact Hn | lra]. }
  split.
  - apply Rmin_glb; [exact Hq | lra].
  - apply Rle_lt_trans with (1 - / 8388608); [apply Rmin_r | lra].
Qed.

Section WithRandom.
Context {G : Type} `{Juce.Random G}.

(** Enabled, [addAnalogNoise] draws one number from the generator. *)
Lemma addAnalogNoise_enabled (level : R) (g : G) :
  addAnalogNoise true level g
  = ((fst (Juce.nextFloat g) * 2 - 1) * 0.0003 * level * 100, snd (Juce.nextFloat g)).
Proof.
  unfold addAnalogNoise. cbn [negb].
  destruct (Juce.nextFloat g). reflexivity.
Qed.

(** Disabled, it draws none. *)
Lemma addAnalogNoise_disabled (level : R) (g : G) :
  addAnalogNoise false level g = (0, g).
Proof. reflexivity. Qed.

(** C9: [addAnalogNoise] returns exactly 0 when it is disabled (and draws
    nothing from the generator); when it is enabled, with a level in
    [[0, 1]] and a generator whose [nextFloat] is in [[0, 1)], the result
    is [x * 0.0003 * level * 100] for some [x] in [[-1, 1]], so that its
    absolute value is at most [0.03 * level]. *)
Theorem addAnalogNoise_range (level : R) (random : G) :
  (forall g : G, 0 <= fst (Juce.nextFloat g) < 1) ->
  0 <= level <= 1 ->
  addAnalogNoise false level random = (0, random)
  /\ (exists x : R, -1 <= x <= 1
        /\ fst (addAnalogNoise true level random) = x * 0.0003 * level * 100)
  /\ Rabs (fst (addAnalogNoise true level random)) <= 0.03 * level.
Proof.
  intros Hrange Hlevel. split; [reflexivity|].
  unfold addAnalogNoise. cbn [negb].
  pose proof (Hrange random) as Hx.
  destruct (Juce.nextFloat random) as [x random']. cbn [fst] in *.
  split.
  - exists (x * 2 - 1). split; [lra | reflexivity].
  - apply Rabs_le. nra.
Qed.

End WithRandom.

Lemma addAnalogNoise_range_witness :
  (forall g : JuceRandom.t, 0 <= fst (Juce.nextFloat g) < 1)
  /\ 0 <= 0.3 <= 1
  /\ Rabs (fst (addAnalogNoise true 0.3 (JuceRandom.mk 1))) <= 0.03 * 0.3.
Proof.
  assert (Hl : 0 <= 0.3 <= 1) by lra.
  split; [exact JuceRandom_nextFloat_range|]. split; [exact Hl|].
  exact (proj2 (proj2 (addAnalogNoise_range 0.3 (JuceRandom.mk 1)
                         JuceRandom_nextFloat_range Hl))).
Defined.

End VintageProps.

(* ================================================================= *)
(** ** [juce::jlimit] on the machine numbers *)

Module JuceFloatProps.
Import JuceFloat.

(** The comparison of IEEE-754 values, read in the other direction. *)
Lemma SFcompare_antisym (x y : float) (c : comparison) :
  SFcompare x y = Some c -> SFcompare y x = Some (CompOpp c).
Proof.
  destruct x as [sx|sx| |sx mx ex], y as [sy|sy| |sy my ey]; cbn;
    try discriminate;
    try (intros [= <-]; try destruct sx; try destruct sy; reflexivity).
  intros [= <-]. f_equal.
  assert (Hm : Pos.compare_cont Eq my mx = CompOpp (Pos.compare_cont Eq mx my))
    by (rewrite Pos.compare_cont_antisym; reflexivity).
  rewrite (Z.compare_antisym ex ey).
  destruct sx, sy; try reflexivity;
    destruct (ex ?= ey)%Z; cbn; rewrite ?Hm, ?CompOpp_involutive; reflexivity.
Qed.

Lemma SFcompare_refl (x : float) : isNaN x = false -> SFcompare x x = Some Eq.
Proof.
  destruct x as [s|s| |s m e]; cbn; try discriminate; intros _.
  - reflexivity.
  - destruct s; reflexivity.
  - f_equal. rewrite Z.compare_refl.
    fold (Pos.compare m m). rewrite Pos.compare_refl. destruct s; reflexivity.
Qed.

Lemma SFcompare_defined (x y : float) :
  isNaN x = false -> isNaN y = false -> exists c, SFcompare x y = Some c.
Proof.
  destruct x, y; cbn; try discriminate; intros _ _; eexists; reflexivity.
Qed.

Lemma SFleb_not_NaN (x y : float) :
  SFleb x y = true -> isNaN x = false /\ isNaN y = false.
Proof. destruct x, y; cbn; try discriminate; split; reflexivity. Qed.

Lemma SFleb_refl (x : float) : isNaN x = false -> SFleb x x = true.
Proof. intros H. unfold SFleb. rewrite SFcompare_refl by exact H. reflexivity. Qed.

Lemma SFltb_false_SFleb (x y : float) :
  isNaN x = false -> isNaN y = false -> SFltb x y = false -> SFleb y x = true.
Proof.
  intros Hx Hy. unfold SFltb, SFleb.
  destruct (SFcompare_defined x y Hx Hy) as [c Hc].
  rewrite Hc, (SFcompare_antisym x y c Hc).
  destruct c; cbn; congruence.
Qed.

(** On a float that is a number, infinities included, the clamp lands
    between its limits. *)
Lemma jlimit_float_range (lo hi x : float) :
  SFleb lo hi = true -> isNaN x = false ->
  SFleb lo (jlimit lo hi x) = true /\ SFleb (jlimit lo hi x) hi = true.
Proof.
  intros Hle Hx. destruct (SFleb_not_NaN lo hi Hle) as [Hlo Hhi].
  unfold jlimit.
  destruct (SFltb x lo) eqn:E1.
  - split; [apply SFleb_refl; exact Hlo | exact Hle].
  - destruct (SFltb hi x) eqn:E2.
    + split; [exact Hle | apply SFleb_refl; exact Hhi].
    + split; apply SFltb_false_SFleb; assumption.
Qed.

(** Both comparisons are false on a NaN: it goes through. *)
Lemma jlimit_float_NaN (lo hi : float) : jlimit lo hi S754_nan = S754_nan.
Proof. unfold jlimit. destruct lo, hi; reflexivity. Qed.

Lemma jlimit_float_inside (lo hi x : float) :
  SFleb lo x = true -> SFleb x hi = true -> jlimit lo hi x = x.
Proof.
  intros H1 H2. unfold jlimit, SFltb, SFleb in *.
  destruct (SFcompare lo x) as [c1|] eqn:E1; [|discriminate].
  rewrite (SFcompare_antisym lo x c1 E1).
  destruct (SFcompare x hi) as [c2|] eqn:E2; [|discriminate].
  rewrite (SFcompare_antisym x hi c2 E2).
  destruct c1, c2; cbn; try discriminate; reflexivity.
Qed.
End JuceFloatProps.

(* ================================================================= *)
(** ** The voice *)

Module VoiceProps.
Import SynthVoice.

Lemma jlimit_range (lo hi x : R) : lo <= hi -> lo <= Juce.jlimit lo hi x <= hi.
Proof.
  intros Hle. unfold Juce.jlimit.
  destruct (Rlt_dec x lo); [lra|]. destruct (Rlt_dec hi x); lra.
Qed.

Lemma jlimit_inside (lo hi x : R) : lo <= x <= hi -> Juce.jlimit lo hi x = x.
Proof.
  intros Hx. unfold Juce.jlimit.
  destruct (Rlt_dec x lo); [lra|]. destruct (Rlt_dec hi x); [lra|reflexivity].
Qed.

Lemma jlimitZ_range (lo hi x : Z) :
  (lo <= hi)%Z -> (lo <= Juce.jlimitZ lo hi x <= hi)%Z.
Proof.
  intros Hle. unfold Juce.jlimitZ.
  destruct (Z.ltb_spec x lo); [lia|]. destruct (Z.ltb_spec hi x); lia.
Qed.

Lemma jlimitZ_inside (lo hi x : Z) :
  (lo <= x <= hi)%Z -> Juce.jlimitZ lo hi x = x.
Proof.
  intros Hx. unfold Juce.jlimitZ.
  destruct (Z.ltb_spec x lo); [lia|]. destruct (Z.ltb_spec hi x); [lia|reflexivity].
Qed.

Section Generic.
Context {E F G : Type} `{Juce.ADSR E} `{Juce.Filter F} `{Juce.Random G}.

(** [stopNote] sends [noteOff] to both envelopes, whatever its arguments. *)
Lemma stopNote_envelopes (velocity : R) (allowTailOff : bool) (v : t E F) :
  adsr (stopNote velocity allowTailOff v) = Juce.noteOff (adsr v)
  /\ filterAdsr (stopNote velocity allowTailOff v) = Juce.noteOff (filterAdsr v).
Proof.
  unfold stopNote. cbn [adsr].
  destruct (negb allowTailOff || negb (Juce.isActive (Juce.noteOff (adsr v))));
    split; reflexivity.
Qed.

(** Without tail-off, or with the amplitude envelope inactive after its
    [noteOff], [stopNote] clears the current note: the voice is Free. *)
Lemma stopNote_frees (velocity : R) (allowTailOff : bool) (v : t E F) :
  allowTailOff = false \/ Juce.isActive (Juce.noteOff (adsr v)) = false ->
  currentlyPlayingNote (stopNote velocity allowTailOff v) = (-1)%Z
  /\ isVoiceActive (stopNote velocity allowTailOff v) = false.
Proof.
  intros Hc. unfold stopNote. cbn [adsr].
  assert (Ec : negb allowTailOff || negb (Juce.isActive (Juce.noteOff (adsr v))) = true).
  { destruct Hc as [-> | ->]; [reflexivity | apply orb_true_r]. }
  rewrite Ec. split; reflexivity.
Qed.

(** With an active amplitude envelope, a block of one sample is one run of
    the loop body; the envelope has advanced by one sample. *)
Lemma renderNextBlock_one (b : AudioBuffer.t) (s : Z) (v : t E F) (g : G) :
  Juce.isActive (adsr v) = true ->
  fst (fst (renderNextBlock b s 1 v g)) = fst (fst (renderSample s (b, v, g)))
  /\ adsr (snd (fst (renderNextBlock b s 1 v g))) = snd (Juce.getNextSample (adsr v))
  /\ snd (renderNextBlock b s 1 v g) = snd (renderSample s (b, v, g)).
Proof.
  intros Ha. unfold renderNextBlock. rewrite Ha. cbn [negb].
  change (Z.to_nat 1) with 1%nat. cbn [forLoop].
  assert (Ea : adsr (snd (fst (renderSample s (b, v, g))))
               = snd (Juce.getNextSample (adsr v))).
  { unfold renderSample, renderFrame.
    destruct (Juce.getNextSample (adsr v)) as [envValue adsr'].
    destruct (Juce.getNextSample (filterAdsr v)) as [filterEnvValue filterAdsr'].
    destruct (UnisonOscillator.getNextSampleStereo (oscillator v)) as [[rawLeft rawRight] osc'].
    destruct (Juce.processSample 0 _ _) as [filteredLeft filter2].
    destruct (Juce.processSample 1 _ _) as [filteredRight filter3].
    destruct (VintageProcessor.addAnalogNoise _ _ _) as [noise random'].
    reflexivity. }
  destruct (renderSample s (b, v, g)) as [[b' v'] g']. cbn [fst snd] in *.
  destruct (negb (Juce.isActive (adsr v'))); cbn [fst snd adsr clearCurrentNote];
    repeat split; exact Ea.
Qed.

(** C5, as amended: the setters of the unison bank clamp at entry: after
    [updateUnison] the voice count is in [[1, 7]], detune and stereo width
    are in [[0, 1]], whatever the arguments, NaN apart, and an argument in
    range is stored as it is.  [updateFilter] clamps neither cutoff nor
    resonance: it stores both as given and hands the resonance to the
    filter as given.  The cutoff is clamped later, once per sample: the
    value handed to the filter by the render loop is in [[20, 20000]],
    unless it is a NaN.  The clamp is [juce::jlimit] each time: on the
    machine floats it returns, for every value that is not a NaN
    (infinities included), a value between its limits, and it returns a
    NaN as it is, so that a NaN detune, stereo width or cutoff is not
    clamped; a float between the limits is returned unchanged. *)
Theorem control_values_clamping
    (voices : Z) (detune stereo cutoff resonance envAmount filterEnvValue : R)
    (v : t E F) (lowerLimit upperLimit value : JuceFloat.float) :
  let u := oscillator (updateUnison voices detune stereo v) in
  let v' := updateFilter cutoff resonance envAmount v in
  ((1 <= UnisonOscillator.numVoices u <= 7)%Z
   /\ 0 <= UnisonOscillator.detuneAmount u <= 1
   /\ 0 <= UnisonOscillator.stereoWidth u <= 1)
  /\ (((1 <= voices <= 7)%Z -> UnisonOscillator.numVoices u = voices)
      /\ (0 <= detune <= 1 -> UnisonOscillator.detuneAmount u = detune)
      /\ (0 <= stereo <= 1 -> UnisonOscillator.stereoWidth u = stereo))
  /\ (baseCutoff v' = cutoff
      /\ filterResonance v' = resonance
      /\ filter v' = Juce.setResonance resonance (filter v))
  /\ 20 <= modulatedCutoff v' filterEnvValue <= 20000
  /\ (SFleb lowerLimit upperLimit = true -> JuceFloat.isNaN value = false ->
      SFleb lowerLimit (JuceFloat.jlimit lowerLimit upperLimit value) = true
      /\ SFleb (JuceFloat.jlimit lowerLimit upperLimit value) upperLimit = true)
  /\ (SFleb lowerLimit value = true -> SFleb value upperLimit = true ->
      JuceFloat.jlimit lowerLimit upperLimit value = value)
  /\ JuceFloat.jlimit lowerLimit upperLimit S754_nan = S754_nan.
Proof.
  cbn zeta. cbn [updateUnison updateFilter oscillator baseCutoff filterResonance filter
                 UnisonOscillator.setNumVoices UnisonOscillator.setDetuneAmount
                 UnisonOscillator.setStereoWidth UnisonOscillator.numVoices
                 UnisonOscillator.detuneAmount UnisonOscillator.stereoWidth].
  split; [|split; [|split; [|split; [|split; [|split]]]]].
  - split; [apply jlimitZ_range; unfold UnisonOscillator.maxVoices; lia|].
    split; apply jlimit_range; lra.
  - split; [intros Hv; apply jlimitZ_inside; exact Hv|].
    split; intros Hx; apply jlimit_inside; exact Hx.
  - repeat split.
  - unfold modulatedCutoff. apply jlimit_range. lra.
  - apply JuceFloatProps.jlimit_float_range.
  - apply JuceFloatProps.jlimit_float_inside.
  - apply JuceFloatProps.jlimit_float_NaN.
Qed.

(** C7: when the amplitude envelope is inactive, [renderNextBlock] returns
    at once: the output buffer, every component of the voice and the noise
    generator are what they were, for every buffer, start and length. *)
Theorem renderNextBlock_inactive (b : AudioBuffer.t) (startSample numSamples : Z)
    (v : t E F) (g : G) :
  Juce.isActive (adsr v) = false ->
  renderNextBlock b startSample numSamples v g = (b, v, g).
Proof.
  intros Ha. unfold renderNextBlock. rewrite Ha. reflexivity.
Qed.

(** C10: in one run of the loop body the noise is drawn once, by a single
    call to [addAnalogNoise] (one number from the generator when the noise
    is enabled, none otherwise), and the same draw, scaled by the value of
    the amplitude envelope, is what both channels receive: the two values
    added to the buffer are [cleanLeft + noise * envValue] and
    [cleanRight + noise * envValue], where [cleanLeft] and [cleanRight] do
    not depend on the generator. *)
Theorem noise_is_shared_by_both_channels (v : t E F) :
  exists cleanLeft cleanRight : R,
    forall (g : G) (b : AudioBuffer.t) (startSample : Z),
      let noise := fst (VintageProcessor.addAnalogNoise (noiseEnabled v) (noiseLevel v) g) in
      let envValue := fst (Juce.getNextSample (adsr v)) in
      let left := cleanLeft + noise * envValue in
      let right := cleanRight + noise * envValue in
      fst (fst (renderFrame v g)) = (left, right)
      /\ snd (renderFrame v g)
         = (if noiseEnabled v then snd (Juce.nextFloat g) else g)
      /\ fst (fst (renderSample startSample (b, v, g)))
         = (let b0 := if (0 <? AudioBuffer.getNumChannels b)%Z
                      then AudioBuffer.addSample 0 startSample left b else b in
            if (1 <? AudioBuffer.getNumChannels b0)%Z
            then AudioBuffer.addSample 1 startSample right b0 else b0).
Proof.
  destruct (Juce.getNextSample (adsr v)) as [envValue adsr'] eqn:Eenv.
  destruct (Juce.getNextSample (filterAdsr v)) as [filterEnvValue filterAdsr'] eqn:Efenv.
  destruct (UnisonOscillator.getNextSampleStereo (oscillator v))
    as [[rawLeft rawRight] osc'] eqn:Eosc.
  destruct (Juce.processSample 0 (rawLeft * level v * envValue)
              (Juce.setCutoffFrequency (modulatedCutoff v filterEnvValue) (filter v)))
    as [filteredLeft filter2] eqn:Efl.
  destruct (Juce.processSample 1 (rawRight * level v * envValue) filter2)
    as [filteredRight filter3] eqn:Efr.
  exists (VintageProcessor.softClip filteredLeft), (VintageProcessor.softClip filteredRight).
  intros g b startSample. cbn zeta.
  unfold renderSample, renderFrame.
  rewrite Eenv, Efenv, Eosc, Efl, Efr.
  assert (Eg : snd (VintageProcessor.addAnalogNoise (noiseEnabled v) (noiseLevel v) g)
               = if noiseEnabled v then snd (Juce.nextFloat g) else g).
  { destruct (noiseEnabled v).
    - rewrite VintageProps.addAnalogNoise_enabled. reflexivity.
    - reflexivity. }
  destruct (VintageProcessor.addAnalogNoise (noiseEnabled v) (noiseLevel v) g)
    as [noise random'].
  cbn [fst snd] in *. subst random'. repeat split.
Qed.

End Generic.

(** C5, as stated, fails for the filter: [updateFilter (50000, 100, 0)]
    stores a cutoff of 50000 Hz and a resonance of 100, both out of range,
    and the filter receives the resonance of 100. *)
Lemma updateFilter_stores_out_of_range :
  let v := updateFilter 50000 100 0 (newVoice 44100) in
  baseCutoff v = 50000 /\ ~ (20 <= baseCutoff v <= 20000)
  /\ filterResonance v = 100 /\ ~ (0.1 <= filterResonance v <= 10)
  /\ JuceFilter.resonance (filter v) = 100.
Proof.
  cbn. repeat split; try reflexivity; lra.
Qed.

Lemma control_values_clamping_witness :
  let v := newVoice 44100 in
  let zero := JuceFloat.ofDyadic 0 0 in
  let one := JuceFloat.ofDyadic 1 0 in
  let threeHalves := JuceFloat.ofDyadic 3 (-1) in
  (1 <= 3 <= 7)%Z /\ 0 <= 0.5 <= 1
  /\ SFleb zero one = true /\ JuceFloat.isNaN threeHalves = false
  /\ UnisonOscillator.numVoices (oscillator (updateUnison 3 0.5 0.5 v)) = 3%Z
  /\ UnisonOscillator.detuneAmount (oscillator (updateUnison 3 0.5 0.5 v)) = 0.5
  /\ UnisonOscillator.stereoWidth (oscillator (updateUnison 3 0.5 0.5 v)) = 0.5
  /\ SFleb zero (JuceFloat.jlimit zero one threeHalves) = true
  /\ SFleb (JuceFloat.jlimit zero one threeHalves) one = true.
Proof.
  intros v zero one threeHalves.
  assert (Hv : (1 <= 3 <= 7)%Z) by lia.
  assert (Hx : 0 <= 0.5 <= 1) by lra.
  assert (Hl : SFleb zero one = true) by reflexivity.
  assert (Hn' : JuceFloat.isNaN threeHalves = false) by reflexivity.
  destruct (control_values_clamping 3 0.5 0.5 1000 0.7 0 0 v zero one threeHalves)
    as (_ & (Hn & Hd & Hs) & _ & _ & Hf & _).
  split; [exact Hv|]. split; [exact Hx|]. split; [exact Hl|]. split; [exact Hn'|].
  split; [exact (Hn Hv)|]. split; [exact (Hd Hx)|]. split; [exact (Hs Hx)|].
  exact (Hf Hl Hn').
Defined.

Lemma renderNextBlock_inactive_witness :
  let v := newVoice 44100 in
  let b : AudioBuffer.t := [[0; 0]; [0; 0]] in
  Juce.isActive (adsr v) = false
  /\ renderNextBlock b 0 2 v (JuceRandom.mk 1) = (b, v, JuceRandom.mk 1).
Proof.
  intros v b.
  assert (Ha : Juce.isActive (adsr v) = false) by reflexivity.
  split; [exact Ha|].
  exact (renderNextBlock_inactive b 0 2 v (JuceRandom.mk 1) Ha).
Defined.

End VoiceProps.

(* ================================================================= *)
(** ** The envelope of JUCE, where the voice depends on it *)

Module JuceADSRProps.
Import JuceADSR.

Lemma getRate_positive (distance timeInSeconds sr : R) :
  0 < timeInSeconds -> getRate distance timeInSeconds sr = distance / (timeInSeconds * sr).
Proof.
  intros Ht. unfold getRate. destruct (Rgt_dec timeInSeconds 0); [reflexivity | lra].
Qed.

Lemma noteOn_attack (a : t) :
  0 < attackRate a -> noteOn a = withState attack (envelopeVal a) a.
Proof.
  intros Hr. unfold noteOn. destruct (Rgt_dec (attackRate a) 0); [reflexivity | lra].
Qed.

Lemma getNextSample_attack (a : t) :
  state a = attack -> envelopeVal a + attackRate a < 1 ->
  getNextSample a
  = (envelopeVal a + attackRate a, withState attack (envelopeVal a + attackRate a) a).
Proof.
  intros Hs Hv. unfold getNextSample. rewrite Hs.
  destruct (Rge_dec (envelopeVal a + attackRate a) 1); [lra | reflexivity].
Qed.

Lemma noteOff_active (a : t) :
  state a <> idle -> 0 < p_release (parameters a) ->
  noteOff a
  = mk release (parameters a) (sampleRate a) (envelopeVal a)
       (attackRate a) (decayRate a)
       (envelopeVal a / (p_release (parameters a) * sampleRate a)).
Proof.
  intros Hs Hr. unfold noteOff.
  destruct (Rgt_dec (p_release (parameters a)) 0); [|lra].
  destruct (state a); [congruence | reflexivity ..].
Qed.

Lemma getNextSample_release (a : t) :
  state a = release -> 0 < envelopeVal a - releaseRate a ->
  getNextSample a
  = (envelopeVal a - releaseRate a, withState release (envelopeVal a - releaseRate a) a).
Proof.
  intros Hs Hv. unfold getNextSample. rewrite Hs.
  destruct (Rle_dec (envelopeVal a - releaseRate a) 0); [lra | reflexivity].
Qed.

(** A [noteOff] on a sounding envelope starts the release stage: the
    envelope stays active, and its next value is still positive when the
    release lasts more than one sample. *)
Lemma noteOff_keeps_sounding (a : t) :
  state a <> idle -> 0 < p_release (parameters a) -> 0 < envelopeVal a ->
  1 < p_release (parameters a) * sampleRate a ->
  isActive (noteOff a) = true
  /\ fst (getNextSample (noteOff a))
     = envelopeVal a - envelopeVal a / (p_release (parameters a) * sampleRate a)
  /\ 0 < fst (getNextSample (noteOff a)).
Proof.
  intros Hs Hr Hv Hn.
  rewrite (noteOff_active a Hs Hr).
  set (d := p_release (parameters a) * sampleRate a) in *.
  assert (Hd : envelopeVal a / d < envelopeVal a).
  { apply (Rmult_lt_reg_r d); [lra|].
    unfold Rdiv. rewrite Rmult_assoc, Rinv_l by lra. nra. }
  split; [reflexivity|].
  rewrite getNextSample_release;
    cbn [state envelopeVal releaseRate fst]; [| reflexivity | lra].
  split; [reflexivity | lra].
Qed.

End JuceADSRProps.

(* ================================================================= *)
(** ** A note stopped without tail-off *)

Module PanicStop.
Import SynthVoice.

Lemma tanh_0 : tanh 0 = 0.
Proof. unfold tanh, Rdiv. rewrite sinh_0. ring. Qed.

Lemma softClip_0 : VintageProcessor.softClip 0 = 0.
Proof. unfold VintageProcessor.softClip. simpl. rewrite Rmult_0_l, tanh_0. ring. Qed.

Lemma nth_all_zero (l : list R) (c : nat) : Forall (fun x => x = 0) l -> nth c l 0 = 0.
Proof.
  intros Hl. revert c. induction Hl as [|x l Hx Hl IH]; intros [|c]; simpl; auto.
Qed.

Lemma replace_nth_all_zero (l : list R) (c : nat) (x : R) :
  x = 0 -> Forall (fun x => x = 0) l -> Forall (fun x => x = 0) (replace_nth c x l).
Proof.
  intros Hx Hl. revert c. induction Hl as [|y l Hy Hl IH]; intros [|c]; simpl; auto.
Qed.

(** Silence through a filter at rest is silence, and the filter stays at rest. *)
Lemma processSample_quiet (c : Z) (x : R) (f : JuceFilter.t) :
  x = 0 -> quiet f ->
  fst (JuceFilter.processSample c x f) = 0 /\ quiet (snd (JuceFilter.processSample c x f)).
Proof.
  intros -> [H1 H2]. unfold JuceFilter.processSample. cbn [fst snd].
  rewrite (nth_all_zero _ _ H1), (nth_all_zero _ _ H2).
  split; [ring|].
  split; cbn [JuceFilter.s1 JuceFilter.s2]; apply replace_nth_all_zero; try assumption; ring.
Qed.

(** One sine voice at phase 0 contributes nothing to the mix. *)
Lemma single_sine_silent (u : UnisonOscillator.t) (o : Oscillator.t) :
  UnisonOscillator.numVoices u = 1%Z ->
  nth_error (UnisonOscillator.oscillators u) 0 = Some o ->
  Oscillator.currentWaveform o = Oscillator.Sine ->
  Oscillator.currentPhase o = 0 ->
  fst (UnisonOscillator.getNextSampleStereo u) = (0, 0).
Proof.
  intros Hn Ho Hw Hp. unfold UnisonOscillator.getNextSampleStereo.
  rewrite Hn. change (Z.to_nat 1) with 1%nat. cbn [forLoop].
  unfold UnisonOscillator.mix_body. change (Z.to_nat 0) with 0%nat. rewrite Ho.
  unfold Oscillator.getNextSample. rewrite Hw, Hp. cbn [Oscillator.waveform_sample fst].
  replace (0 * 2 * PI) with 0 by ring. rewrite sin_0.
  f_equal; ring.
Qed.

Lemma stereo_single_step (u : UnisonOscillator.t) (o : Oscillator.t) :
  UnisonOscillator.numVoices u = 1%Z ->
  nth_error (UnisonOscillator.oscillators u) 0 = Some o ->
  UnisonOscillator.numVoices (snd (UnisonOscillator.getNextSampleStereo u)) = 1%Z
  /\ nth_error (UnisonOscillator.oscillators (snd (UnisonOscillator.getNextSampleStereo u))) 0
     = Some (snd (Oscillator.getNextSample o)).
Proof.
  intros Hn Ho. unfold UnisonOscillator.getNextSampleStereo.
  rewrite Hn. change (Z.to_nat 1) with 1%nat. cbn [forLoop].
  unfold UnisonOscillator.mix_body. change (Z.to_nat 0) with 0%nat. rewrite Ho.
  cbn [Oscillator.getNextSample snd UnisonOscillator.numVoices UnisonOscillator.oscillators].
  split; [reflexivity|].
  apply nth_error_replace_nth_same. apply nth_error_Some. congruence.
Qed.

Lemma renderFrame_fields {E F G} `{Juce.ADSR E} `{Juce.Filter F} `{Juce.Random G}
    (v : t E F) (g : G) :
  let v' := snd (fst (renderFrame v g)) in
  oscillator v' = snd (UnisonOscillator.getNextSampleStereo (oscillator v))
  /\ adsr v' = snd (Juce.getNextSample (adsr v))
  /\ noiseEnabled v' = noiseEnabled v /\ noiseLevel v' = noiseLevel v
  /\ sampleRate v' = sampleRate v /\ level v' = level v.
Proof.
  cbn zeta. unfold renderFrame.
  destruct (Juce.getNextSample (adsr v)) as [envValue adsr'].
  destruct (Juce.getNextSample (filterAdsr v)) as [filterEnvValue filterAdsr'].
  destruct (UnisonOscillator.getNextSampleStereo (oscillator v)) as [[rawLeft rawRight] osc'].
  destruct (Juce.processSample 0 _ _) as [filteredLeft filter2].
  destruct (Juce.processSample 1 _ _) as [filteredRight filter3].
  destruct (VintageProcessor.addAnalogNoise _ _ _) as [noise random'].
  cbn. repeat split.
Qed.

(** The frame of a voice that is silent before the noise: both channels get
    the noise scaled by the envelope, and nothing else. *)
Lemma renderFrame_quiet (v : t JuceADSR.t JuceFilter.t) (g : JuceRandom.t)
    (o : Oscillator.t) :
  UnisonOscillator.numVoices (oscillator v) = 1%Z ->
  nth_error (UnisonOscillator.oscillators (oscillator v)) 0 = Some o ->
  Oscillator.currentWaveform o = Oscillator.Sine ->
  Oscillator.currentPhase o = 0 ->
  quiet (filter v) ->
  fst (fst (renderFrame v g))
  = (fst (VintageProcessor.addAnalogNoise (noiseEnabled v) (noiseLevel v) g)
       * fst (Juce.getNextSample (adsr v)),
     fst (VintageProcessor.addAnalogNoise (noiseEnabled v) (noiseLevel v) g)
       * fst (Juce.getNextSample (adsr v)))
  /\ quiet (filter (snd (fst (renderFrame v g))))
  /\ snd (renderFrame v g)
     = snd (VintageProcessor.addAnalogNoise (noiseEnabled v) (noiseLevel v) g).
Proof.
  intros Hn Ho Hw Hp Hq. unfold renderFrame.
  pose proof (single_sine_silent (oscillator v) o Hn Ho Hw Hp) as Hs.
  destruct (Juce.getNextSample (adsr v)) as [envValue adsr'].
  destruct (Juce.getNextSample (filterAdsr v)) as [filterEnvValue filterAdsr'].
  destruct (UnisonOscillator.getNextSampleStereo (oscillator v)) as [[rawLeft rawRight] osc'].
  cbn [fst] in Hs. injection Hs as -> ->.
  set (f1 := Juce.setCutoffFrequency _ (filter v)).
  assert (Hq1 : quiet f1) by exact Hq.
  destruct (processSample_quiet 0 (0 * level v * envValue) f1 ltac:(ring) Hq1) as [E2 Hq2].
  change (Juce.processSample 0 (0 * level v * envValue) f1)
    with (JuceFilter.processSample 0 (0 * level v * envValue) f1).
  destruct (JuceFilter.processSample 0 (0 * level v * envValue) f1) as [filteredLeft filter2].
  cbn [fst snd] in E2, Hq2.
  destruct (processSample_quiet 1 (0 * level v * envValue) filter2 ltac:(ring) Hq2) as [E3 Hq3].
  change (Juce.processSample 1 (0 * level v * envValue) filter2)
    with (JuceFilter.processSample 1 (0 * level v * envValue) filter2).
  destruct (JuceFilter.processSample 1 (0 * level v * envValue) filter2) as [filteredRight filter3].
  cbn [fst snd] in E3, Hq3. subst filteredLeft filteredRight.
  destruct (VintageProcessor.addAnalogNoise _ _ _) as [noise random'].
  cbn [fst snd filter]. rewrite softClip_0.
  split; [f_equal; ring|]. split; [exact Hq3 | reflexivity].
Qed.

Section Generic.
Context {E F G : Type} `{Juce.ADSR E} `{Juce.Filter F} `{Juce.Random G}.

Lemma renderSample_frame (s : Z) (b : AudioBuffer.t) (v : t E F) (g : G) :
  snd (fst (renderSample s (b, v, g))) = snd (fst (renderFrame v g))
  /\ snd (renderSample s (b, v, g)) = snd (renderFrame v g).
Proof.
  unfold renderSample.
  destruct (renderFrame v g) as [[[l r] v'] g']. split; reflexivity.
Qed.

(** The voice after a block of one sample: the voice after the frame, with
    its note cleared or not. *)
Lemma renderNextBlock_one_voice (b : AudioBuffer.t) (s : Z) (v : t E F) (g : G) :
  Juce.isActive (adsr v) = true ->
  (snd (fst (renderNextBlock b s 1 v g)) = snd (fst (renderFrame v g))
   \/ snd (fst (renderNextBlock b s 1 v g)) = clearCurrentNote (snd (fst (renderFrame v g))))
  /\ snd (renderNextBlock b s 1 v g) = snd (renderFrame v g).
Proof.
  intros Ha. unfold renderNextBlock. rewrite Ha. cbn [negb].
  change (Z.to_nat 1) with 1%nat. cbn [forLoop].
  destruct (renderSample_frame s b v g) as [Ev Eg].
  destruct (renderSample s (b, v, g)) as [[b' v'] g']. cbn [fst snd] in *.
  subst v' g'.
  destruct (negb (Juce.isActive (adsr _))); cbn [fst snd]; split; auto.
Qed.

End Generic.

(** [startNote] on a bank of one voice: the voice restarts at phase 0. *)
Lemma startNote_single_voice (frequency sr : R) (u : UnisonOscillator.t) (o : Oscillator.t) :
  UnisonOscillator.numVoices u = 1%Z ->
  nth_error (UnisonOscillator.oscillators u) 0 = Some o ->
  let u' := UnisonOscillator.reset (UnisonOscillator.setFrequency frequency sr u) in
  UnisonOscillator.numVoices u' = 1%Z
  /\ exists o', nth_error (UnisonOscillator.oscillators u') 0 = Some o'
       /\ Oscillator.currentWaveform o' = Oscillator.currentWaveform o
       /\ Oscillator.currentPhase o' = 0.
Proof.
  intros Hn Ho. cbn zeta. split; [exact Hn|].
  pose proof (UnisonProps.setFrequency_voice frequency sr u 0 o) as E.
  rewrite Hn in E. specialize (E ltac:(simpl; lia) Ho).
  eexists. split; [|split].
  - unfold UnisonOscillator.reset. cbn [UnisonOscillator.oscillators].
    rewrite nth_error_map, E. reflexivity.
  - reflexivity.
  - reflexivity.
Qed.

Lemma addSample_stereo_first (l r : R) :
  let b := [[0]; [0]] in
  (let b0 := if (0 <? AudioBuffer.getNumChannels b)%Z
             then AudioBuffer.addSample 0 0 l b else b in
   if (1 <? AudioBuffer.getNumChannels b0)%Z
   then AudioBuffer.addSample 1 0 r b0 else b0)
  = [[0 + l]; [0 + r]].
Proof. reflexivity. Qed.

(** The second number that the generator seeded with 1 draws. *)
Lemma second_draw_not_half :
  fst (JuceRandom.nextFloat (snd (JuceRandom.nextFloat (JuceRandom.mk 1)))) <> 0.5.
Proof.
  unfold JuceRandom.nextFloat, JuceRandom.nextInt. cbn [fst snd JuceRandom.seed].
  match goal with |- context [IZR ?z] =>
    let z' := eval vm_compute in z in change z with z' end.
  unfold Rmin. destruct (Rle_dec _ _); lra.
Qed.


Section Buffer.
Context {E F G : Type} `{Juce.ADSR E} `{Juce.Filter F} `{Juce.Random G}.

Lemma renderSample_buffer (s : Z) (b : AudioBuffer.t) (v : t E F) (g : G) :
  fst (fst (renderSample s (b, v, g)))
  = (let b0 := if (0 <? AudioBuffer.getNumChannels b)%Z
               then AudioBuffer.addSample 0 s (fst (fst (fst (renderFrame v g)))) b else b in
     if (1 <? AudioBuffer.getNumChannels b0)%Z
     then AudioBuffer.addSample 1 s (snd (fst (fst (renderFrame v g)))) b0 else b0).
Proof.
  unfold renderSample. destruct (renderFrame v g) as [[[l r] v'] g']. reflexivity.
Qed.

End Buffer.

(** C6 fails on the release tail.  A new voice at 44.1 kHz with the noise
    enabled at 30 % plays a note for one sample; then [startNote] followed
    at once by [stopNote (0, false)] leaves the voice Free, as the claim
    says, but the amplitude envelope has only entered its release stage:
    it is still active, its next value is positive, and the next
    [renderNextBlock] on a silent buffer does not return early and leaves
    a buffer that is no longer silent. *)
Theorem panic_stop_keeps_rendering :
  let fresh := updateNoise true 30 (newVoice 44100) in
  let silence : AudioBuffer.t := [[0]; [0]] in
  let block1 := renderNextBlock silence 0 1 (startNote 60 1 fresh) (JuceRandom.mk 1) in
  let v := stopNote 0 false (startNote 60 1 (snd (fst block1))) in
  let block2 := renderNextBlock silence 0 1 v (snd block1) in
  isVoiceActive v = false
  /\ Juce.isActive (adsr v) = true
  /\ 0 < fst (Juce.getNextSample (adsr v))
  /\ fst (fst block2) <> silence.
Proof.
  intros fresh silence block1 v block2.
  (* the first note *)
  set (v1 := startNote 60 1 fresh) in *.
  set (r := JuceADSR.attackRate (newEnvelope 44100)).
  assert (Hr : 0 < r < 1 / 2).
  { unfold r. cbn [newEnvelope JuceADSR.make JuceADSR.attackRate JuceADSR.p_attack].
    rewrite JuceADSRProps.getRate_positive by lra.
    replace (0.1 * 44100) with 4410 by lra. lra. }
  assert (Ha1 : adsr v1 = JuceADSR.withState JuceADSR.attack 0 (newEnvelope 44100)).
  { change (adsr v1) with (JuceADSR.noteOn (newEnvelope 44100)).
    apply JuceADSRProps.noteOn_attack. fold r. lra. }
  assert (Hact1 : Juce.isActive (adsr v1) = true) by (rewrite Ha1; reflexivity).
  destruct (startNote_single_voice (Juce.getMidiNoteInHertz 60) 44100
              UnisonOscillator.init Oscillator.init eq_refl eq_refl)
    as (Hn1 & o1 & Ho1 & Hw1 & Hp1).
  cbn [Oscillator.currentWaveform Oscillator.init] in Hw1.
  change (UnisonOscillator.reset _) with (oscillator v1) in Hn1, Ho1.
  assert (Hq1 : quiet (filter v1)) by (split; repeat constructor).
  (* the first block *)
  destruct (renderNextBlock_one_voice silence 0 v1 (JuceRandom.mk 1) Hact1) as [Hv2 Hg2].
  fold block1 in Hv2, Hg2.
  set (v2 := snd (fst (renderFrame v1 (JuceRandom.mk 1)))) in *.
  assert (Ev : v = stopNote 0 false (startNote 60 1 v2)).
  { unfold v. destruct Hv2 as [-> | ->]; reflexivity. }
  destruct (renderFrame_fields v1 (JuceRandom.mk 1)) as (Eosc & Eadsr & Ene & Enl & Esr & _).
  cbn zeta in Eosc, Eadsr, Ene, Enl, Esr. fold v2 in Eosc, Eadsr, Ene, Enl, Esr.
  destruct (renderFrame_quiet v1 (JuceRandom.mk 1) o1 Hn1 Ho1 Hw1 Hp1 Hq1) as (_ & Hq2 & Eg2).
  fold v2 in Hq2. rewrite <- Hg2 in Eg2.
  destruct (stereo_single_step (oscillator v1) o1 Hn1 Ho1) as [Hn2 Ho2].
  rewrite <- Eosc in Hn2, Ho2.
  assert (Ha2 : adsr v2 = JuceADSR.withState JuceADSR.attack (0 + r) (newEnvelope 44100)).
  { rewrite Eadsr, Ha1.
    change (Juce.getNextSample ?a) with (JuceADSR.getNextSample a).
    rewrite JuceADSRProps.getNextSample_attack; [reflexivity | reflexivity |].
    cbn [JuceADSR.withState JuceADSR.envelopeVal JuceADSR.attackRate]. fold r. lra. }
  (* the second note, stopped at once *)
  set (v3 := startNote 60 1 v2) in *.
  assert (Ha3 : adsr v3 = JuceADSR.withState JuceADSR.attack (0 + r) (newEnvelope 44100)).
  { change (adsr v3) with (JuceADSR.noteOn (adsr v2)). rewrite Ha2.
    rewrite JuceADSRProps.noteOn_attack; [reflexivity|].
    cbn [JuceADSR.withState JuceADSR.attackRate]. fold r. lra. }
  assert (Hav : adsr v = JuceADSR.noteOff (adsr v3)) by (rewrite Ev; reflexivity).
  destruct (JuceADSRProps.noteOff_keeps_sounding (adsr v3)) as (Hact & _ & Hpos).
  { rewrite Ha3. discriminate. }
  { rewrite Ha3. cbn. lra. }
  { rewrite Ha3. cbn [JuceADSR.withState JuceADSR.envelopeVal]. lra. }
  { rewrite Ha3. cbn. lra. }
  rewrite <- Hav in Hact, Hpos.
  change (JuceADSR.isActive (adsr v)) with (Juce.isActive (adsr v)) in Hact.
  change (JuceADSR.getNextSample (adsr v)) with (Juce.getNextSample (adsr v)) in Hpos.
  split; [rewrite Ev; reflexivity|]. split; [exact Hact|]. split; [exact Hpos|].
  (* the block after the stop *)
  destruct (startNote_single_voice (Juce.getMidiNoteInHertz 60) (sampleRate v2)
              (oscillator v2) _ Hn2 Ho2) as (Hn3 & o3 & Ho3 & Hw3 & Hp3).
  cbn [Oscillator.getNextSample snd Oscillator.currentWaveform] in Hw3. rewrite Hw1 in Hw3.
  assert (Hqv : quiet (filter v)) by (rewrite Ev; exact Hq2).
  assert (Hnv : UnisonOscillator.numVoices (oscillator v) = 1%Z) by (rewrite Ev; exact Hn3).
  assert (Hov : nth_error (UnisonOscillator.oscillators (oscillator v)) 0 = Some o3)
    by (rewrite Ev; exact Ho3).
  destruct (renderFrame_quiet v (snd block1) o3 Hnv Hov Hw3 Hp3 Hqv) as (Efr & _ & _).
  destruct (VoiceProps.renderNextBlock_one silence 0 v (snd block1) Hact) as (Eb & _ & _).
  fold block2 in Eb. rewrite Eb, renderSample_buffer, Efr. cbn [fst snd].
  rewrite addSample_stereo_first.
  assert (Hnoise : fst (VintageProcessor.addAnalogNoise (noiseEnabled v) (noiseLevel v) (snd block1)) <> 0).
  { replace (noiseEnabled v) with true by (rewrite Ev; cbn; rewrite Ene; reflexivity).
    replace (noiseLevel v) with (30 / 100) by (rewrite Ev; cbn; rewrite Enl; reflexivity).
    rewrite Eg2.
    replace (noiseEnabled v1) with true by reflexivity.
    rewrite !VintageProps.addAnalogNoise_enabled. cbn [fst snd].
    change (@Juce.nextFloat JuceRandom.t JuceRandom_Random) with JuceRandom.nextFloat.
    pose proof second_draw_not_half as Hx.
    set (x := fst (JuceRandom.nextFloat _)) in *.
    intros Hz. apply Hx. nra. }
  set (noise := fst (VintageProcessor.addAnalogNoise _ _ _)) in *.
  set (envValue := fst (Juce.getNextSample (adsr v))) in *.
  clearbody noise envValue.
  intros Hb. injection Hb as Hl _.
  rewrite Rplus_0_l in Hl.
  destruct (Rmult_integral _ _ Hl) as [Hz | Hz]; [exact (Hnoise Hz) | lra].
Qed.

End PanicStop.

(* ################################################################# *)
(** * Part III: further properties of the code *)

(** ** Loops, arrays and hyperbolic tangent *)

Lemma forLoop_app {S : Type} (body : Z -> S -> S) (n m : nat) (i : Z) (s : S) :
  forLoop body (n + m) i s = forLoop body m (i + Z.of_nat n)%Z (forLoop body n i s).
Proof.
  revert i s. induction n as [|n IH]; intros i s.
  - cbn [forLoop Nat.add]. replace (i + Z.of_nat 0)%Z with i by lia. reflexivity.
  - cbn [forLoop Nat.add]. rewrite IH. f_equal. lia.
Qed.

(** The loop leaves the cells past its last index alone. *)
Lemma forLoop_cellwise_above {A : Type} (f : Z -> A -> A) (count : nat) (i : Z)
    (l : list A) (j : nat) :
  (0 <= i)%Z -> (i + Z.of_nat count <= Z.of_nat j)%Z ->
  nth_error (forLoop (cellwise f) count i l) j = nth_error l j.
Proof.
  revert i l. induction count as [|c IH]; intros i l Hi Hj; simpl; [reflexivity|].
  rewrite IH by lia. unfold cellwise.
  destruct (nth_error l (Z.to_nat i)); [|reflexivity].
  apply nth_error_replace_nth_other. lia.
Qed.

Lemma map_replace_nth_same {A B : Type} (p : A -> B) (i : nat) (x a : A) (l : list A) :
  nth_error l i = Some a -> p x = p a -> map p (replace_nth i x l) = map p l.
Proof.
  revert i. induction l as [|h t IH]; intros [|i] Ha Hp; simpl in *; try discriminate.
  - injection Ha as ->. rewrite Hp. reflexivity.
  - rewrite (IH i Ha Hp). reflexivity.
Qed.

(** A loop whose body keeps a projection of each cell keeps it everywhere. *)
Lemma forLoop_cellwise_map {A B : Type} (p : A -> B) (f : Z -> A -> A) :
  (forall i a, p (f i a) = p a) ->
  forall count i l, map p (forLoop (cellwise f) count i l) = map p l.
Proof.
  intros Hp count. induction count as [|c IH]; intros i l; simpl; [reflexivity|].
  rewrite IH. unfold cellwise.
  destruct (nth_error l (Z.to_nat i)) as [a|] eqn:E; [|reflexivity].
  apply (map_replace_nth_same p _ _ a); [exact E | apply Hp].
Qed.

Lemma Forall_replace_nth {A : Type} (P : A -> Prop) (i : nat) (x : A) (l : list A) :
  P x -> Forall P l -> Forall P (replace_nth i x l).
Proof.
  intros Hx Hl. revert i. induction Hl as [|y l Hy Hl IH]; intros [|i]; simpl; auto.
Qed.

Lemma nth_replace_nth_same {A : Type} (i : nat) (x d : A) (l : list A) :
  (i < length l)%nat -> nth i (replace_nth i x l) d = x.
Proof.
  revert i. induction l as [|h t IH]; intros [|i] Hi; simpl in *; try lia.
  - reflexivity.
  - apply IH. lia.
Qed.

Lemma nth_replace_nth_other {A : Type} (i j : nat) (x d : A) (l : list A) :
  i <> j -> nth j (replace_nth i x l) d = nth j l d.
Proof.
  revert i j. induction l as [|h t IH]; intros [|i] [|j] Hij; simpl;
    try reflexivity; try congruence.
  apply IH. congruence.
Qed.

Lemma Forall_repeat {A : Type} (P : A -> Prop) (a : A) (n : nat) :
  P a -> Forall P (repeat a n).
Proof.
  intros Ha. apply Forall_forall. intros x Hx.
  rewrite (repeat_spec n a x Hx). exact Ha.
Qed.

Lemma exp_opp_inv (x : R) : exp x * exp (- x) = 1.
Proof. rewrite <- exp_plus. replace (x + - x) with 0 by ring. apply exp_0. Qed.

Lemma tanh_exp (x : R) :
  tanh x = (exp x - exp (- x)) / (exp x + exp (- x)).
Proof.
  unfold tanh, sinh, cosh.
  pose proof (exp_pos x). pose proof (exp_pos (- x)).
  field. lra.
Qed.

Lemma tanh_odd (x : R) : tanh (- x) = - tanh x.
Proof.
  rewrite !tanh_exp, Ropp_involutive.
  pose proof (exp_pos x). pose proof (exp_pos (- x)).
  field. lra.
Qed.

Lemma tanh_bound (x : R) : -1 < tanh x < 1.
Proof.
  rewrite tanh_exp.
  pose proof (exp_pos x) as Ha. pose proof (exp_pos (- x)) as Hb.
  set (a := exp x) in *. set (b := exp (- x)) in *.
  assert (Hi : 0 < / (a + b)) by (apply Rinv_0_lt_compat; lra).
  split.
  - apply (Rmult_lt_reg_r (a + b)); [lra|].
    unfold Rdiv. rewrite Rmult_assoc, Rinv_l by lra. lra.
  - apply (Rmult_lt_reg_r (a + b)); [lra|].
    unfold Rdiv. rewrite Rmult_assoc, Rinv_l by lra. lra.
Qed.

Lemma tanh_increasing (x y : R) : x < y -> tanh x < tanh y.
Proof.
  intros Hxy. rewrite !tanh_exp.
  pose proof (exp_pos x) as Ha. pose proof (exp_pos (- x)) as Ha'.
  pose proof (exp_pos y) as Hb. pose proof (exp_pos (- y)) as Hb'.
  pose proof (exp_opp_inv x) as Ex. pose proof (exp_opp_inv y) as Ey.
  pose proof (exp_increasing x y Hxy) as Hab.
  assert (Hab' : exp (- y) < exp (- x)) by (apply exp_increasing; lra).
  set (a := exp x) in *. set (a' := exp (- x)) in *.
  set (b := exp y) in *. set (b' := exp (- y)) in *.
  apply (Rmult_lt_reg_r ((a + a') * (b + b'))); [nra|].
  replace ((a - a') / (a + a') * ((a + a') * (b + b'))) with ((a - a') * (b + b'))
    by (field; lra).
  replace ((b - b') / (b + b') * ((a + a') * (b + b'))) with ((b - b') * (a + a'))
    by (field; lra).
  nra.
Qed.

(* ================================================================= *)
(** ** The oscillator: shape of the waveforms, periodicity *)

Module OscillatorExtra.
Import Oscillator OscillatorProps.

(** X1: on a phase in [[0, 1)], the correction of [polyBlep] stays in
    [[-1, 1]], whatever the phase increment. *)
Theorem polyBlep_bounded (t dt : R) :
  0 <= t < 1 -> -1 <= polyBlep t dt <= 1.
Proof.
  intros Ht.
  destruct (polyBlep_cases t dt Ht)
    as [(Hl & u & Hu & Etu & ->) | [(Hl & Hh & u & Hu & Etu & ->) | (Hl & Hh & ->)]];
    nra.
Qed.

Lemma polyBlep_bounded_witness :
  0 <= 0.1 < 1 /\ -1 <= polyBlep 0.1 0.25 <= 1.
Proof.
  assert (H : 0 <= 0.1 < 1) by lra.
  split; [exact H | exact (polyBlep_bounded 0.1 0.25 H)].
Defined.

(** The correction is odd about the middle of the cycle. *)
Lemma polyBlep_odd (t dt : R) :
  0 <= t <= 1 -> 0 <= dt <= 0.5 -> polyBlep (1 - t) dt = - polyBlep t dt.
Proof.
  intros Ht Hdt. unfold polyBlep.
  destruct (Rlt_dec t dt) as [H1|H1].
  - destruct (Rlt_dec (1 - t) dt) as [H2|H2]; [lra|].
    destruct (Rgt_dec (1 - t) (1 - dt)) as [H3|H3]; [|lra].
    cbn zeta. field. lra.
  - destruct (Rgt_dec t (1 - dt)) as [H2|H2].
    + destruct (Rlt_dec (1 - t) dt) as [H3|H3]; [|lra].
      cbn zeta. field. lra.
    + destruct (Rlt_dec (1 - t) dt) as [H3|H3]; [lra|].
      destruct (Rgt_dec (1 - t) (1 - dt)) as [H4|H4]; [lra|]. ring.
Qed.

(** X2: the band-limited saw is odd about the middle of its cycle: the
    sample at phase [1 - t] is the opposite of the sample at phase [t], for
    every phase increment up to [0.5]. *)
Theorem saw_odd_symmetry (t dt : R) :
  0 <= t <= 1 -> 0 <= dt <= 0.5 ->
  waveform_sample Saw (1 - t) dt = - waveform_sample Saw t dt.
Proof.
  intros Ht Hdt. cbn [waveform_sample]. cbn zeta.
  rewrite (polyBlep_odd t dt Ht Hdt). ring.
Qed.

Lemma saw_odd_symmetry_witness :
  0 <= 0.1 <= 1 /\ 0 <= 0.25 <= 0.5
  /\ waveform_sample Saw (1 - 0.1) 0.25 = - waveform_sample Saw 0.1 0.25.
Proof.
  assert (Ht : 0 <= 0.1 <= 1) by lra.
  assert (Hd : 0 <= 0.25 <= 0.5) by lra.
  split; [exact Ht|]. split; [exact Hd | exact (saw_odd_symmetry 0.1 0.25 Ht Hd)].
Defined.

Lemma fmod_unit (x : R) : 0 <= x < 1 -> fmod x 1 = x.
Proof.
  intros Hx. unfold fmod. replace (x / 1) with x by field.
  rewrite Rtrunc_unit by exact Hx. simpl. ring.
Qed.

Lemma fmod_wrap (x : R) : 1 <= x < 2 -> fmod x 1 = x - 1.
Proof.
  intros Hx. unfold fmod. replace (x / 1) with x by field.
  rewrite Rtrunc_one by exact Hx. simpl. ring.
Qed.

(** X3: in exact arithmetic, half a cycle later the band-limited square
    has the opposite value: the two corrections of polyBLEP exchange their
    roles.  The phase stays [2^-53] below one half, so that
    [currentPhase + 0.5] stays below [1] also when rounded to a double, and
    the increment is between [2^-20] and one half, where polyBLEP is
    continuous and a rounding of the phase moves the sample by less than a
    [float] resolves.  One double higher, at [0.5 - 2^-54], the code gives
    [2.0]: [OscillatorIEEEProps.square_sample_leaves_unit_range]. *)
Theorem square_half_wave_antisymmetry (t dt : R) :
  0 <= t <= 0.5 - 1 / 9007199254740992 ->
  1 / 1048576 <= dt <= 0.5 ->
  waveform_sample Square (t + 0.5) dt = - waveform_sample Square t dt.
Proof.
  intros Ht _. cbn [waveform_sample]. cbn zeta.
  rewrite (fmod_unit (t + 0.5)) by lra.
  rewrite (fmod_wrap (t + 0.5 + 0.5)) by lra.
  replace (t + 0.5 + 0.5 - 1) with t by lra.
  destruct (Rlt_dec (t + 0.5) 0.5); [lra|].
  destruct (Rlt_dec t 0.5); [|lra]. ring.
Qed.

Lemma square_half_wave_antisymmetry_witness :
  0 <= 0.1 <= 0.5 - 1 / 9007199254740992
  /\ 1 / 1048576 <= 0.25 <= 0.5
  /\ waveform_sample Square (0.1 + 0.5) 0.25 = - waveform_sample Square 0.1 0.25.
Proof.
  assert (Ht : 0 <= 0.1 <= 0.5 - 1 / 9007199254740992) by lra.
  assert (Hd : 1 / 1048576 <= 0.25 <= 0.5) by lra.
  split; [exact Ht|].
  split; [exact Hd | exact (square_half_wave_antisymmetry 0.1 0.25 Ht Hd)].
Defined.

(** X4: the triangle is symmetric about the middle of its cycle, where
    its two branches meet: the sample at phase [1 - t] is the sample at
    phase [t], and the phase increment plays no part. *)
Theorem triangle_mirror_symmetry (t dt dt' : R) :
  waveform_sample Triangle (1 - t) dt = waveform_sample Triangle t dt'.
Proof.
  cbn [waveform_sample].
  destruct (Rlt_dec (1 - t) 0.5), (Rlt_dec t 0.5); lra.
Qed.

(** The phase after [n] calls is the exact sum minus whole cycles. *)
Lemma run_phase_sum (n : nat) (o : t) :
  0 <= currentPhase o < 1 -> 0 <= phaseDelta o < 1 ->
  0 <= currentPhase (snd (run n o)) < 1
  /\ exists k : Z, currentPhase (snd (run n o))
          = currentPhase o + INR n * phaseDelta o - IZR k.
Proof.
  intros Hp Hd. induction n as [|n [IHr (k & IHe)]].
  - split; [exact Hp|]. exists 0%Z. simpl. lra.
  - rewrite run_snoc, getNextSample_phase, run_delta.
    split; [apply advance_range; assumption|].
    destruct (advance_wraps (currentPhase (snd (run n o))) (phaseDelta o)) as [E|E];
      rewrite E, IHe, S_INR.
    + exists k. ring.
    + exists (k + 1)%Z. rewrite plus_IZR. ring.
Qed.

Lemma run_waveform (n : nat) (o : t) :
  currentWaveform (snd (run n o)) = currentWaveform o.
Proof.
  revert o. induction n as [|n IH]; intros o; [reflexivity|].
  rewrite run_S. cbn [snd]. rewrite IH. reflexivity.
Qed.

(** X5: when [n] phase increments make a whole number of cycles, [n] calls
    to [getNextSample] bring the oscillator back to the state it started
    from, so that the next [n] samples repeat the first [n]. *)
Theorem run_whole_cycles (n : nat) (m : Z) (o : t) :
  0 <= currentPhase o < 1 -> 0 <= phaseDelta o < 1 ->
  INR n * phaseDelta o = IZR m ->
  snd (run n o) = o /\ fst (run n (snd (run n o))) = fst (run n o).
Proof.
  intros Hp Hd Hc.
  assert (E : snd (run n o) = o).
  { destruct (run_phase_sum n o Hp Hd) as [Hr (k & Hk)].
    pose proof (run_delta n o) as Ed. pose proof (run_waveform n o) as Ew.
    rewrite Hc in Hk.
    assert (Hz : (m - k = 0)%Z).
    { assert (H1 : -1 < IZR (m - k) < 1) by (rewrite minus_IZR; lra).
      destruct H1 as [Ha Hb].
      apply lt_IZR in Ha. apply lt_IZR in Hb. lia. }
    assert (Hmk : IZR m - IZR k = 0) by (rewrite <- minus_IZR, Hz; reflexivity).
    destruct (snd (run n o)) as [w p d], o as [w0 p0 d0]. cbn in *.
    subst. f_equal. lra. }
  split; [exact E | rewrite E; reflexivity].
Qed.

Lemma run_whole_cycles_witness :
  let o := mk Saw 0.1 0.25 in
  0 <= currentPhase o < 1 /\ 0 <= phaseDelta o < 1
  /\ INR 4 * phaseDelta o = IZR 1
  /\ snd (run 4 o) = o.
Proof.
  intros o.
  assert (Hp : 0 <= currentPhase o < 1) by (simpl; lra).
  assert (Hd : 0 <= phaseDelta o < 1) by (simpl; lra).
  assert (Hc : INR 4 * phaseDelta o = IZR 1) by (simpl; lra).
  split; [exact Hp|]. split; [exact Hd|]. split; [exact Hc|].
  exact (proj1 (run_whole_cycles 4 1 o Hp Hd Hc)).
Defined.

End OscillatorExtra.

(* ================================================================= *)
(** ** The unison oscillator: detune, panning, mixing *)

Module UnisonExtra.
Import UnisonOscillator UnisonProps.

(** The oscillators after the mixing loop: each voice in use advanced. *)
Lemma mix_loop_oscillators (nv : Z) (w : R) (count : nat) (i : Z)
    (st : R * R * list Oscillator.t) :
  snd (forLoop (mix_body nv w) count i st)
  = forLoop (cellwise (fun _ o => snd (Oscillator.getNextSample o))) count i (snd st).
Proof.
  revert i st. induction count as [|c IH]; intros i [[l r] oscs]; [reflexivity|].
  cbn [forLoop]. rewrite IH. f_equal.
  unfold mix_body, cellwise. cbn [snd].
  destruct (nth_error oscs (Z.to_nat i)); reflexivity.
Qed.

Lemma getNextSampleStereo_oscillators (u : t) :
  oscillators (snd (getNextSampleStereo u))
  = forLoop (cellwise (fun _ o => snd (Oscillator.getNextSample o)))
      (Z.to_nat (numVoices u)) 0%Z (oscillators u)
  /\ numVoices (snd (getNextSampleStereo u)) = numVoices u
  /\ detuneAmount (snd (getNextSampleStereo u)) = detuneAmount u
  /\ stereoWidth (snd (getNextSampleStereo u)) = stereoWidth u.
Proof.
  unfold getNextSampleStereo.
  pose proof (mix_loop_oscillators (numVoices u) (stereoWidth u)
                (Z.to_nat (numVoices u)) 0%Z (0, 0, oscillators u)) as E.
  destruct (forLoop (mix_body _ _) _ _ _) as [[l r] oscs]. cbn [snd] in *.
  subst oscs. repeat split.
Qed.

(** X6: every operation of the unison oscillator keeps the invariant the
    constructor sets up: seven oscillators, and a number of voices in use
    between 1 and 7. No index [oscillators[i]] of its loops is ever out of
    range. *)
Theorem unison_invariant_kept (u : t) (num : Z)
    (amount width frequency sampleRate : R)
    (waveform : Oscillator.OscillatorWaveform) :
  wf u ->
  wf (setNumVoices num u)
  /\ wf (setDetuneAmount amount u)
  /\ wf (setStereoWidth width u)
  /\ wf (setWaveform waveform u)
  /\ wf (setFrequency frequency sampleRate u)
  /\ wf (snd (getNextSampleStereo u))
  /\ wf (reset u).
Proof.
  intros Hwf.
  pose proof Hwf as [Hl Hn].
  split; [apply wf_setNumVoices; exact Hwf|].
  split; [exact Hwf|]. split; [exact Hwf|].
  split; [split; [cbn [setWaveform oscillators]; rewrite length_map; exact Hl | exact Hn]|].
  split; [apply wf_setFrequency; exact Hwf|].
  split.
  - destruct (getNextSampleStereo_oscillators u) as (Eo & En & _).
    split; [rewrite Eo, forLoop_cellwise_length; exact Hl | rewrite En; exact Hn].
  - split; [cbn [reset oscillators]; rewrite length_map; exact Hl | exact Hn].
Qed.

Lemma unison_invariant_kept_witness :
  wf init
  /\ wf (snd (getNextSampleStereo (setFrequency 440 44100 (setNumVoices 9 init)))).
Proof.
  split; [exact wf_init|].
  pose proof (unison_invariant_kept init 9 0 0 440 44100 Oscillator.Sine wf_init)
    as (H1 & _).
  pose proof (unison_invariant_kept _ 9 0 0 440 44100 Oscillator.Sine H1)
    as (_ & _ & _ & _ & H2 & _).
  exact (proj1 (proj2 (proj2 (proj2 (proj2 (proj2
    (unison_invariant_kept _ 9 0 0 440 44100 Oscillator.Sine H2))))))).
Defined.

(** X7: with two voices or more, the detune ratios of [setFrequency] mirror
    each other about the middle voice, whose ratio is exactly 1: for an odd
    number of voices the ratios of voice [i] and voice [nv - 1 - i] are
    inverse to each other; for an even number their product is the ratio of
    one step down, [2^(-15 d / 1200)], the spread being shifted down by half
    a step. *)
Theorem detune_mirror (nv : Z) (d : R) (i : Z) :
  (2 <= nv)%Z ->
  voiceDetune nv d i * voiceDetune nv d (nv - 1 - i)
  = (if Z.odd nv then 1 else Rpower 2 (- (d * 15 / 1200)))
  /\ voiceDetune nv d (Z.quot nv 2) = 1.
Proof.
  intros Hnv. rewrite !voiceDetune_many by exact Hnv.
  rewrite <- Rpower_plus. split.
  - assert (Hq : (nv = 2 * Z.quot nv 2 + Z.rem nv 2)%Z) by (apply Z.quot_rem'; lia).
    destruct (Z.odd nv) eqn:Eo.
    + assert (Hr : Z.rem nv 2 = 1%Z).
      { rewrite Z.rem_mod_nonneg by lia.
        rewrite <- Z.bit0_mod, Z.bit0_odd. rewrite Eo. reflexivity. }
      rewrite <- Rpower_2_0. f_equal.
      replace (nv - 1 - i - Z.quot nv 2)%Z with (Z.quot nv 2 - i)%Z by lia.
      rewrite !minus_IZR. unfold Rdiv. ring.
    + assert (Hr : Z.rem nv 2 = 0%Z).
      { rewrite Z.rem_mod_nonneg by lia.
        rewrite <- Z.bit0_mod, Z.bit0_odd. rewrite Eo. reflexivity. }
      f_equal.
      replace (nv - 1 - i - Z.quot nv 2)%Z with (Z.quot nv 2 - i - 1)%Z by lia.
      rewrite !minus_IZR. unfold Rdiv. simpl IZR. ring.
  - replace (Z.quot nv 2 - Z.quot nv 2)%Z with 0%Z by lia.
    rewrite <- Rpower_2_0. f_equal. unfold Rdiv. simpl IZR. ring.
Qed.

Lemma detune_mirror_witness :
  (2 <= 7)%Z
  /\ voiceDetune 7 0.5 0 * voiceDetune 7 0.5 6 = 1
  /\ voiceDetune 7 0.5 3 = 1.
Proof.
  assert (H : (2 <= 7)%Z) by lia.
  split; [exact H|]. exact (detune_mirror 7 0.5 0 H).
Defined.

(** X8: with 2 to 7 voices and a detune amount in (0, 1], the detune
    ratios grow strictly with the index of the voice, and all lie within 45
    cents of the played note: between [2^(-45/1200)] and [2^(45/1200)]. *)
Theorem detune_range_and_order (nv : Z) (d : R) (i j : Z) :
  (2 <= nv <= maxVoices)%Z -> 0 < d <= 1 -> (0 <= i < j)%Z -> (j < nv)%Z ->
  Rpower 2 (- 45 / 1200) <= voiceDetune nv d i
  /\ voiceDetune nv d i < voiceDetune nv d j
  /\ voiceDetune nv d j <= Rpower 2 (45 / 1200).
Proof.
  unfold maxVoices. intros Hnv Hd Hi Hj.
  rewrite !voiceDetune_many by lia.
  assert (Hq : (nv = 2 * Z.quot nv 2 + Z.rem nv 2)%Z) by (apply Z.quot_rem'; lia).
  assert (Hr : (0 <= Z.rem nv 2 < 2)%Z) by (apply Z.rem_bound_pos; lia).
  assert (Hci : -3 <= IZR (i - Z.quot nv 2) <= 3).
  { split; [apply (IZR_le (-3)) | apply (IZR_le _ 3)]; lia. }
  assert (Hcj : -3 <= IZR (j - Z.quot nv 2) <= 3).
  { split; [apply (IZR_le (-3)) | apply (IZR_le _ 3)]; lia. }
  assert (Hij : IZR (i - Z.quot nv 2) < IZR (j - Z.quot nv 2)) by (apply IZR_lt; lia).
  split; [|split].
  - apply Rle_Rpower; [lra | nra].
  - apply Rpower_lt; [lra | nra].
  - apply Rle_Rpower; [lra | nra].
Qed.

Lemma detune_range_and_order_witness :
  (2 <= 3 <= maxVoices)%Z /\ 0 < 0.5 <= 1 /\ (0 <= 0 < 2)%Z /\ (2 < 3)%Z
  /\ voiceDetune 3 0.5 0 < voiceDetune 3 0.5 2.
Proof.
  assert (H1 : (2 <= 3 <= maxVoices)%Z) by (unfold maxVoices; lia).
  assert (H2 : 0 < 0.5 <= 1) by lra.
  assert (H3 : (0 <= 0 < 2)%Z) by lia.
  assert (H4 : (2 < 3)%Z) by lia.
  split; [exact H1|]. split; [exact H2|]. split; [exact H3|]. split; [exact H4|].
  exact (proj1 (proj2 (detune_range_and_order 3 0.5 0 2 H1 H2 H3 H4))).
Defined.

(** X9: [setFrequency] retunes the voices in use and nothing else: an
    oscillator past the number of voices keeps its state, increment
    included, and no oscillator changes phase or waveform. *)
Theorem setFrequency_frame (frequency sampleRate : R) (u : t) (j : nat) :
  (numVoices u <= Z.of_nat j)%Z ->
  nth_error (oscillators (setFrequency frequency sampleRate u)) j
  = nth_error (oscillators u) j
  /\ map Oscillator.currentPhase (oscillators (setFrequency frequency sampleRate u))
     = map Oscillator.currentPhase (oscillators u)
  /\ map Oscillator.currentWaveform (oscillators (setFrequency frequency sampleRate u))
     = map Oscillator.currentWaveform (oscillators u).
Proof.
  intros Hj.
  unfold setFrequency. cbn [oscillators]. rewrite setFrequency_body_cellwise.
  split; [|split].
  - apply forLoop_cellwise_above; lia.
  - apply forLoop_cellwise_map. reflexivity.
  - apply forLoop_cellwise_map. reflexivity.
Qed.

Lemma setFrequency_frame_witness :
  (numVoices init <= Z.of_nat 3)%Z
  /\ nth_error (oscillators (setFrequency 440 44100 init)) 3
     = nth_error (oscillators init) 3.
Proof.
  assert (H : (numVoices init <= Z.of_nat 3)%Z) by (simpl; lia).
  split; [exact H | exact (proj1 (setFrequency_frame 440 44100 init 3 H))].
Defined.

Lemma pan_range (nv : Z) (w : R) (i : Z) :
  (0 <= i < nv)%Z -> 0 <= w <= 1 -> -1 <= pan nv w i <= 1.
Proof.
  intros Hi Hw. unfold pan. destruct (Z.ltb_spec 1 nv) as [Hnv|Hnv]; [|lra].
  cbn zeta.
  assert (Hd : 0 < IZR (nv - 1)) by (apply (IZR_lt 0); lia).
  assert (Hi0 : 0 <= IZR i) by (apply (IZR_le 0); lia).
  assert (Hi1 : IZR i <= IZR (nv - 1)) by (apply IZR_le; lia).
  assert (Hq : 0 <= IZR i / IZR (nv - 1) <= 1).
  { split.
    - apply Rmult_le_pos; [lra | left; apply Rinv_0_lt_compat; lra].
    - apply (Rmult_le_reg_r (IZR (nv - 1))); [lra|].
      unfold Rdiv. rewrite Rmult_assoc, Rinv_l by lra. lra. }
  replace (2 * IZR i / IZR (nv - 1)) with (2 * (IZR i / IZR (nv - 1)))
    by (unfold Rdiv; ring).
  nra.
Qed.

Lemma pan_first (nv : Z) : (2 <= nv)%Z -> pan nv 1 0 = -1.
Proof.
  intros Hnv. unfold pan. destruct (Z.ltb_spec 1 nv); [|lia].
  cbn zeta. unfold Rdiv. simpl IZR. ring.
Qed.

Lemma pan_last (nv : Z) : (2 <= nv)%Z -> pan nv 1 (nv - 1) = 1.
Proof.
  intros Hnv. unfold pan. destruct (Z.ltb_spec 1 nv); [|lia].
  cbn zeta.
  assert (Hd : 0 < IZR (nv - 1)) by (apply (IZR_lt 0); lia).
  field. lra.
Qed.

(** X10: for a voice in use and a stereo width in [[0, 1]], the pan
    position lies in [[-1, 1]], both gains lie in [[0, 1]] and their squares
    add up to 1: the panning law keeps the power of the voice constant. *)
Theorem pan_is_constant_power (nv : Z) (w : R) (i : Z) :
  (0 <= i < nv)%Z -> 0 <= w <= 1 ->
  -1 <= pan nv w i <= 1
  /\ 0 <= cos ((pan nv w i + 1) * 0.25 * PI) <= 1
  /\ 0 <= sin ((pan nv w i + 1) * 0.25 * PI) <= 1
  /\ cos ((pan nv w i + 1) * 0.25 * PI) * cos ((pan nv w i + 1) * 0.25 * PI)
     + sin ((pan nv w i + 1) * 0.25 * PI) * sin ((pan nv w i + 1) * 0.25 * PI) = 1.
Proof.
  intros Hi Hw.
  pose proof (pan_range nv w i Hi Hw) as Hp.
  pose proof PI_RGT_0 as Hpi.
  set (panAngle := (pan nv w i + 1) * 0.25 * PI).
  assert (Ha : 0 <= panAngle <= PI / 2) by (unfold panAngle; nra).
  split; [exact Hp|].
  split; [split; [apply cos_ge_0; lra | apply COS_bound]|].
  split; [split; [apply sin_ge_0; lra | apply SIN_bound]|].
  pose proof (sin2_cos2 panAngle) as H. unfold Rsqr in H. lra.
Qed.

Lemma pan_is_constant_power_witness :
  (0 <= 1 < 5)%Z /\ 0 <= 0.5 <= 1 /\ -1 <= pan 5 0.5 1 <= 1.
Proof.
  assert (H1 : (0 <= 1 < 5)%Z) by lia.
  assert (H2 : 0 <= 0.5 <= 1) by lra.
  split; [exact H1|]. split; [exact H2|].
  exact (proj1 (pan_is_constant_power 5 0.5 1 H1 H2)).
Defined.

(** X11: at full stereo width and with two voices or more, the first voice
    is panned hard left (gains 1 and 0) and the last one hard right (gains
    0 and 1). *)
Theorem full_width_extremes (nv : Z) :
  (2 <= nv)%Z ->
  cos ((pan nv 1 0 + 1) * 0.25 * PI) = 1 /\ sin ((pan nv 1 0 + 1) * 0.25 * PI) = 0
  /\ cos ((pan nv 1 (nv - 1) + 1) * 0.25 * PI) = 0
  /\ sin ((pan nv 1 (nv - 1) + 1) * 0.25 * PI) = 1.
Proof.
  intros Hnv. rewrite pan_first, pan_last by exact Hnv.
  replace ((-1 + 1) * 0.25 * PI) with 0 by lra.
  replace ((1 + 1) * 0.25 * PI) with (PI / 2) by lra.
  rewrite cos_0, sin_0, cos_PI2, sin_PI2. repeat split.
Qed.

Lemma full_width_extremes_witness :
  (2 <= 7)%Z /\ cos ((pan 7 1 0 + 1) * 0.25 * PI) = 1.
Proof.
  assert (H : (2 <= 7)%Z) by lia.
  split; [exact H | exact (proj1 (full_width_extremes 7 H))].
Defined.

(** X12: with one voice in use, [getNextSampleStereo] returns the sample of
    the first oscillator divided by the square root of 2 on both sides: the
    single voice sits in the centre, 3 dB down, whatever the stereo width
    and the detune amount. *)
Theorem single_voice_is_mono (u : t) (o : Oscillator.t) :
  numVoices u = 1%Z -> nth_error (oscillators u) 0 = Some o ->
  fst (getNextSampleStereo u)
  = (fst (Oscillator.getNextSample o) / sqrt 2,
     fst (Oscillator.getNextSample o) / sqrt 2).
Proof.
  intros Hn Ho. unfold getNextSampleStereo.
  rewrite Hn. change (Z.to_nat 1) with 1%nat. cbn [forLoop].
  unfold mix_body. change (Z.to_nat 0) with 0%nat. rewrite Ho.
  destruct (Oscillator.getNextSample o) as [s o']. cbn [fst].
  unfold pan. cbn [Z.ltb Z.compare Pos.compare Pos.compare_cont].
  replace ((0 + 1) * 0.25 * PI) with (PI / 4) by lra.
  rewrite sin_PI4, cos_PI4, sqrt_1.
  assert (Hs : 0 < sqrt 2) by (apply sqrt_lt_R0; lra).
  f_equal; field; lra.
Qed.

Lemma single_voice_is_mono_witness :
  numVoices init = 1%Z /\ nth_error (oscillators init) 0 = Some Oscillator.init
  /\ fst (getNextSampleStereo init)
     = (fst (Oscillator.getNextSample Oscillator.init) / sqrt 2,
        fst (Oscillator.getNextSample Oscillator.init) / sqrt 2).
Proof.
  assert (H1 : numVoices init = 1%Z) by reflexivity.
  assert (H2 : nth_error (oscillators init) 0 = Some Oscillator.init) by reflexivity.
  split; [exact H1|]. split; [exact H2|].
  exact (single_voice_is_mono init Oscillator.init H1 H2).
Defined.

Lemma mix_body_bound (nv : Z) (w : R) (i : Z) (l r B : R) (oscs : list Oscillator.t) :
  Forall steady oscs -> - B <= l <= B -> - B <= r <= B ->
  - (B + 1) <= fst (fst (mix_body nv w i (l, r, oscs))) <= B + 1
  /\ - (B + 1) <= snd (fst (mix_body nv w i (l, r, oscs))) <= B + 1
  /\ Forall steady (snd (mix_body nv w i (l, r, oscs))).
Proof.
  intros Ho Hl Hr. unfold mix_body.
  destruct (nth_error oscs (Z.to_nat i)) as [o|] eqn:E; cbn [fst snd].
  - assert (Hs : steady o).
    { rewrite Forall_forall in Ho. apply Ho. eapply nth_error_In. exact E. }
    destruct Hs as [Hp Hd].
    pose proof (OscillatorProps.waveform_sample_bounded
                  (Oscillator.currentWaveform o) _ _ Hp Hd) as Hsample.
    unfold Oscillator.getNextSample. cbn [fst snd].
    set (s := Oscillator.waveform_sample _ _ _) in *.
    set (a := (pan nv w i + 1) * 0.25 * PI).
    pose proof (COS_bound a) as Hc. pose proof (SIN_bound a) as Hsn.
    split; [nra|]. split; [nra|].
    apply Forall_replace_nth; [|exact Ho].
    split; cbn; [apply OscillatorProps.advance_range; lra | exact Hd].
  - repeat split; try lra. exact Ho.
Qed.

Lemma mix_loop_bound (nv : Z) (w : R) (count : nat) :
  forall (i : Z) (l r B : R) (oscs : list Oscillator.t),
  Forall steady oscs -> - B <= l <= B -> - B <= r <= B ->
  - (B + INR count) <= fst (fst (forLoop (mix_body nv w) count i (l, r, oscs)))
    <= B + INR count
  /\ - (B + INR count) <= snd (fst (forLoop (mix_body nv w) count i (l, r, oscs)))
     <= B + INR count
  /\ Forall steady (snd (forLoop (mix_body nv w) count i (l, r, oscs))).
Proof.
  induction count as [|c IH]; intros i l r B oscs Ho Hl Hr.
  - cbn [forLoop fst snd INR]. repeat split; try lra. exact Ho.
  - cbn [forLoop].
    destruct (mix_body_bound nv w i l r B oscs Ho Hl Hr) as (H1 & H2 & H3).
    destruct (mix_body nv w i (l, r, oscs)) as [[l1 r1] oscs1]. cbn [fst snd] in *.
    rewrite S_INR.
    destruct (IH (i + 1)%Z l1 r1 (B + 1) oscs1 H3 H1 H2) as (G1 & G2 & G3).
    repeat split; try lra. exact G3.
Qed.

Lemma getNextSampleStereo_waveforms (u : t) :
  map Oscillator.currentWaveform (oscillators (snd (getNextSampleStereo u)))
  = map Oscillator.currentWaveform (oscillators u).
Proof.
  destruct (getNextSampleStereo_oscillators u) as (Eo & _). rewrite Eo.
  apply forLoop_cellwise_map. reflexivity.
Qed.

(** The frame in exact arithmetic, for every waveform. *)
Lemma exact_frame_bound (u : t) :
  (1 <= numVoices u)%Z ->
  Forall steady (oscillators u) ->
  - sqrt (IZR (numVoices u)) <= fst (fst (getNextSampleStereo u))
    <= sqrt (IZR (numVoices u))
  /\ - sqrt (IZR (numVoices u)) <= snd (fst (getNextSampleStereo u))
     <= sqrt (IZR (numVoices u))
  /\ Forall steady (oscillators (snd (getNextSampleStereo u))).
Proof.
  intros Hn Ho. unfold getNextSampleStereo.
  destruct (mix_loop_bound (numVoices u) (stereoWidth u) (Z.to_nat (numVoices u))
              0%Z 0 0 0 (oscillators u) Ho ltac:(lra) ltac:(lra)) as (H1 & H2 & H3).
  destruct (forLoop _ _ _ _) as [[l r] oscs]. cbn [fst snd oscillators] in *.
  rewrite INR_IZR_INZ, Z2Nat.id in H1, H2 by lia.
  set (N := IZR (numVoices u)) in *.
  assert (HN : 1 <= N) by (apply (IZR_le 1); exact Hn).
  assert (Hs : 0 < sqrt N) by (apply sqrt_lt_R0; lra).
  assert (Hss : sqrt N * sqrt N = N) by (apply sqrt_sqrt; lra).
  assert (Hi : 0 < / sqrt N) by (apply Rinv_0_lt_compat; exact Hs).
  assert (E : N * (1 / sqrt N) = sqrt N) by (rewrite <- Hss at 1; field; lra).
  assert (Hk : 0 < 1 / sqrt N) by lra.
  set (k := 1 / sqrt N) in *. clearbody k.
  split; [nra|]. split; [nra | exact H3].
Qed.

(** X13: for a bank of sines, saws or triangles (the square wave, whose
    samples the rounding of [currentPhase + 0.5] can take to 2, is left
    out), when every oscillator has its phase in [[0, 1)] and an increment
    in [[0, 0.25]], both sides of the frame of [getNextSampleStereo] lie
    within the square root of the number of voices, and the oscillators are
    left in such a state again.  The division by [sqrt numVoices] therefore
    bounds the mix by [sqrt numVoices], not by 1. *)
Theorem getNextSampleStereo_bounded (u : t) :
  (1 <= numVoices u)%Z ->
  Forall steady (oscillators u) ->
  Forall (fun w => w <> Oscillator.Square)
    (map Oscillator.currentWaveform (oscillators u)) ->
  - sqrt (IZR (numVoices u)) <= fst (fst (getNextSampleStereo u))
    <= sqrt (IZR (numVoices u))
  /\ - sqrt (IZR (numVoices u)) <= snd (fst (getNextSampleStereo u))
     <= sqrt (IZR (numVoices u))
  /\ Forall steady (oscillators (snd (getNextSampleStereo u)))
  /\ Forall (fun w => w <> Oscillator.Square)
       (map Oscillator.currentWaveform (oscillators (snd (getNextSampleStereo u)))).
Proof.
  intros Hn Ho Hw.
  destruct (exact_frame_bound u Hn Ho) as (Hl & Hr & Hs).
  split; [exact Hl|]. split; [exact Hr|]. split; [exact Hs|].
  rewrite getNextSampleStereo_waveforms. exact Hw.
Qed.

Lemma steady_init : steady Oscillator.init.
Proof. unfold steady. simpl. lra. Qed.

Lemma getNextSampleStereo_bounded_witness :
  (1 <= numVoices init)%Z /\ Forall steady (oscillators init)
  /\ Forall (fun w => w <> Oscillator.Square)
       (map Oscillator.currentWaveform (oscillators init))
  /\ Forall steady (oscillators (snd (getNextSampleStereo init))).
Proof.
  assert (H1 : (1 <= numVoices init)%Z) by (simpl; lia).
  assert (H2 : Forall steady (oscillators init))
    by (apply Forall_repeat; exact steady_init).
  assert (H3 : Forall (fun w => w <> Oscillator.Square)
                 (map Oscillator.currentWaveform (oscillators init)))
    by (repeat constructor; discriminate).
  split; [exact H1|]. split; [exact H2|]. split; [exact H3|].
  exact (proj1 (proj2 (proj2 (getNextSampleStereo_bounded init H1 H2 H3)))).
Defined.

(** X14: one call to [getNextSampleStereo] advances each oscillator in use
    by exactly one sample and leaves the oscillators past the number of
    voices, and the three settings, as they were. *)
Theorem getNextSampleStereo_advances_voices_in_use (u : t) (i j : nat)
    (o : Oscillator.t) :
  (Z.of_nat i < numVoices u)%Z -> nth_error (oscillators u) i = Some o ->
  (numVoices u <= Z.of_nat j)%Z ->
  nth_error (oscillators (snd (getNextSampleStereo u))) i
  = Some (snd (Oscillator.getNextSample o))
  /\ nth_error (oscillators (snd (getNextSampleStereo u))) j
     = nth_error (oscillators u) j
  /\ numVoices (snd (getNextSampleStereo u)) = numVoices u
  /\ detuneAmount (snd (getNextSampleStereo u)) = detuneAmount u
  /\ stereoWidth (snd (getNextSampleStereo u)) = stereoWidth u.
Proof.
  intros Hi Ho Hj.
  destruct (getNextSampleStereo_oscillators u) as (Eo & En & Ed & Ew).
  rewrite Eo. split; [|split; [|auto]].
  - apply (forLoop_cellwise_at (fun _ o => snd (Oscillator.getNextSample o)));
      [lia | lia | exact Ho].
  - apply forLoop_cellwise_above; lia.
Qed.

Lemma getNextSampleStereo_advances_voices_in_use_witness :
  (Z.of_nat 0 < numVoices init)%Z
  /\ nth_error (oscillators init) 0 = Some Oscillator.init
  /\ (numVoices init <= Z.of_nat 1)%Z
  /\ nth_error (oscillators (snd (getNextSampleStereo init))) 0
     = Some (snd (Oscillator.getNextSample Oscillator.init)).
Proof.
  assert (H1 : (Z.of_nat 0 < numVoices init)%Z) by (simpl; lia).
  assert (H2 : nth_error (oscillators init) 0 = Some Oscillator.init) by reflexivity.
  assert (H3 : (numVoices init <= Z.of_nat 1)%Z) by (simpl; lia).
  split; [exact H1|]. split; [exact H2|]. split; [exact H3|].
  exact (proj1 (getNextSampleStereo_advances_voices_in_use init 0 1
                  Oscillator.init H1 H2 H3)).
Defined.

End UnisonExtra.

(* ================================================================= *)
(** ** The vintage processor: saturation and drift *)

Module VintageExtra.
Import VintageProcessor.

(** X15: [softClip] is an odd function that keeps silence silent and
    never leaves the open interval (-0.8, 0.8), whatever the level of the
    sample it is given. *)
Theorem softClip_odd_and_bounded (x : R) :
  softClip (- x) = - softClip x
  /\ -0.8 < softClip x < 0.8
  /\ softClip 0 = 0.
Proof.
  unfold softClip. cbn zeta.
  split; [|split].
  - replace (- x * 1.5) with (- (x * 1.5)) by ring. rewrite tanh_odd. ring.
  - pose proof (tanh_bound (x * 1.5)). lra.
  - rewrite Rmult_0_l. unfold tanh, Rdiv. rewrite sinh_0. ring.
Qed.

(** X16: [softClip] is strictly increasing: the saturation never folds
    the signal over, and two different samples are never mapped to one. *)
Theorem softClip_increasing (x y : R) : x < y -> softClip x < softClip y.
Proof.
  intros Hxy. unfold softClip. cbn zeta.
  assert (H : tanh (x * 1.5) < tanh (y * 1.5)) by (apply tanh_increasing; lra).
  lra.
Qed.

Lemma softClip_increasing_witness : 0 < 1 /\ softClip 0 < softClip 1.
Proof.
  assert (H : 0 < 1) by lra.
  split; [exact H | exact (softClip_increasing 0 1 H)].
Defined.

Section WithRandom.
Context {G : Type} `{Juce.Random G}.

(** X17: when the generator draws from [[0, 1)] and the stored drift is
    within half a thousandth, [getDriftAmount] returns a drift that again
    lies within [[-0.0005, 0.0005]], stores that very value, moves by at
    most 0.00005 in one call, and draws from the generator exactly once. The
    sample rate it is given plays no part. *)
Theorem getDriftAmount_bounded_walk (sampleRate : R) (p : t) (g : G) :
  (forall g' : G, 0 <= fst (Juce.nextFloat g') < 1) ->
  -0.0005 <= driftPhase p <= 0.0005 ->
  -0.0005 <= fst (fst (getDriftAmount sampleRate p g)) <= 0.0005
  /\ driftPhase (snd (fst (getDriftAmount sampleRate p g)))
     = fst (fst (getDriftAmount sampleRate p g))
  /\ - 0.00005 <= fst (fst (getDriftAmount sampleRate p g)) - driftPhase p <= 0.00005
  /\ snd (getDriftAmount sampleRate p g) = snd (Juce.nextFloat g)
  /\ getDriftAmount sampleRate p g = getDriftAmount 0 p g.
Proof.
  intros Hr Hp. unfold getDriftAmount.
  pose proof (Hr g) as Hx.
  destruct (Juce.nextFloat g) as [x g']. cbn [fst snd] in *.
  set (d := driftPhase p + (x - 0.5) * 0.0001).
  destruct (Rgt_dec d 0.0005) as [H1|H1].
  - destruct (Rlt_dec 0.0005 (-0.0005)) as [H2|H2]; [lra|].
    cbn [driftPhase fst snd]. unfold d in *. repeat split; lra.
  - destruct (Rlt_dec d (-0.0005)) as [H2|H2];
      cbn [driftPhase fst snd]; unfold d in *; repeat split; lra.
Qed.

End WithRandom.

Lemma getDriftAmount_bounded_walk_witness :
  (forall g' : JuceRandom.t, 0 <= fst (Juce.nextFloat g') < 1)
  /\ -0.0005 <= driftPhase init <= 0.0005
  /\ -0.0005 <= fst (fst (getDriftAmount 44100 init (JuceRandom.mk 1))) <= 0.0005.
Proof.
  assert (H1 : forall g' : JuceRandom.t, 0 <= fst (Juce.nextFloat g') < 1)
    by (exact VintageProps.JuceRandom_nextFloat_range).
  assert (H2 : -0.0005 <= driftPhase init <= 0.0005) by (simpl; lra).
  split; [exact H1|]. split; [exact H2|].
  exact (proj1 (getDriftAmount_bounded_walk 44100 init (JuceRandom.mk 1) H1 H2)).
Defined.

End VintageExtra.

(* ================================================================= *)
(** ** The voice: starting a note, rendering a block *)

Module BufferExtra.
Import AudioBuffer.

Lemma option_map_plus_0 (o : option R) : option_map (fun y => y + 0) o = o.
Proof. destruct o; cbn; [f_equal; ring | reflexivity]. Qed.

(** [addSample] adds its value at one place and nowhere else. *)
Lemma addSample_sampleAt (destChannel destSample : Z) (x : R) (b : t) (c i : nat) :
  sampleAt (addSample destChannel destSample x b) c i
  = option_map (fun y => y + added destChannel destSample x c i) (sampleAt b c i).
Proof.
  unfold added, sampleAt, addSample.
  destruct (Z.ltb_spec destChannel 0) as [Hc|Hc]; cbn [orb].
  { destruct (Z.eqb_spec (Z.of_nat c) destChannel); [lia|].
    cbn [andb]. symmetry. apply option_map_plus_0. }
  destruct (Z.ltb_spec destSample 0) as [Hs|Hs].
  { destruct (Z.eqb_spec (Z.of_nat i) destSample); [lia|].
    rewrite andb_false_r. symmetry. apply option_map_plus_0. }
  destruct (nth_error b (Z.to_nat destChannel)) as [ch|] eqn:Ech.
  2:{ destruct (Z.eqb_spec (Z.of_nat c) destChannel) as [Ec|Ec]; cbn [andb].
      - assert (c = Z.to_nat destChannel) by lia. subst c.
        apply nth_error_None in Ech. rewrite (nth_overflow b [] Ech).
        destruct i; reflexivity.
      - symmetry. apply option_map_plus_0. }
  assert (Hlen : (Z.to_nat destChannel < length b)%nat)
    by (apply nth_error_Some; congruence).
  assert (Hch : nth (Z.to_nat destChannel) b [] = ch)
    by (apply nth_error_nth; exact Ech).
  destruct (nth_error ch (Z.to_nat destSample)) as [old|] eqn:Eold.
  2:{ destruct (Z.eqb_spec (Z.of_nat c) destChannel) as [Ec|Ec]; cbn [andb].
      - destruct (Z.eqb_spec (Z.of_nat i) destSample) as [Ei|Ei].
        + assert (c = Z.to_nat destChannel) by lia.
          assert (i = Z.to_nat destSample) by lia. subst c i.
          rewrite Hch, Eold. reflexivity.
        + symmetry. apply option_map_plus_0.
      - symmetry. apply option_map_plus_0. }
  destruct (Z.eqb_spec (Z.of_nat c) destChannel) as [Ec|Ec]; cbn [andb].
  - assert (c = Z.to_nat destChannel) by lia. subst c.
    rewrite nth_replace_nth_same by exact Hlen. rewrite Hch.
    destruct (Z.eqb_spec (Z.of_nat i) destSample) as [Ei|Ei].
    + assert (i = Z.to_nat destSample) by lia. subst i.
      rewrite nth_error_replace_nth_same by (apply nth_error_Some; congruence).
      rewrite Eold. reflexivity.
    + rewrite nth_error_replace_nth_other by lia.
      symmetry. apply option_map_plus_0.
  - rewrite nth_replace_nth_other by lia. symmetry. apply option_map_plus_0.
Qed.

Lemma addSample_shape (destChannel destSample : Z) (x : R) (b : t) :
  map (@length R) (addSample destChannel destSample x b) = map (@length R) b.
Proof.
  unfold addSample.
  destruct ((destChannel <? 0)%Z || (destSample <? 0)%Z); [reflexivity|].
  destruct (nth_error b (Z.to_nat destChannel)) as [ch|] eqn:Ech; [|reflexivity].
  destruct (nth_error ch (Z.to_nat destSample)) as [old|] eqn:Eold; [|reflexivity].
  revert Ech. generalize (Z.to_nat destChannel) as k.
  induction b as [|h tl IH]; intros [|k] Ek; cbn in *; try discriminate.
  - injection Ek as ->. rewrite replace_nth_length. reflexivity.
  - rewrite (IH k Ek). reflexivity.
Qed.

Lemma guarded_addSample_sampleAt (ch s : Z) (x : R) (b : t) (c i : nat) :
  (0 <= ch)%Z ->
  sampleAt (if (ch <? getNumChannels b)%Z then addSample ch s x b else b) c i
  = option_map (fun y => y + added ch s x c i) (sampleAt b c i).
Proof.
  intros Hch. destruct (Z.ltb_spec ch (getNumChannels b)) as [Hlt|Hge].
  - apply addSample_sampleAt.
  - unfold added. destruct (Z.eqb_spec (Z.of_nat c) ch) as [Ec|Ec]; cbn [andb].
    + unfold sampleAt. unfold getNumChannels in Hge.
      rewrite (nth_overflow b []) by lia. destruct i; reflexivity.
    + symmetry. apply option_map_plus_0.
Qed.

Lemma guarded_addSample_shape (ch s : Z) (x : R) (b : t) :
  map (@length R) (if (ch <? getNumChannels b)%Z then addSample ch s x b else b)
  = map (@length R) b.
Proof.
  destruct (ch <? getNumChannels b)%Z; [apply addSample_shape | reflexivity].
Qed.

End BufferExtra.

Module VoiceExtra.
Import SynthVoice BufferExtra.

Section Generic.
Context {E F G : Type} `{Juce.ADSR E} `{Juce.Filter F} `{Juce.Random G}.

(** The voice and the generator after one run of the loop body are those
    after the frame: the buffer and the position play no part. *)
Lemma renderSample_state (s : Z) (b : AudioBuffer.t) (v : t E F) (g : G) :
  snd (fst (renderSample s (b, v, g))) = snd (fst (renderFrame v g))
  /\ snd (renderSample s (b, v, g)) = snd (renderFrame v g).
Proof.
  unfold renderSample.
  destruct (renderFrame v g) as [[[l r] v'] g']. split; reflexivity.
Qed.

Lemma sameSettings_refl (v : t E F) : sameSettings v v.
Proof. repeat split. Qed.

Lemma sameSettings_trans (v1 v2 v3 : t E F) :
  sameSettings v1 v2 -> sameSettings v2 v3 -> sameSettings v1 v3.
Proof.
  unfold sameSettings. intros H12 H23.
  decompose [and] H12. decompose [and] H23. repeat split; congruence.
Qed.

Lemma unison_step_settings (u : UnisonOscillator.t) :
  UnisonOscillator.numVoices (snd (UnisonOscillator.getNextSampleStereo u))
  = UnisonOscillator.numVoices u
  /\ UnisonOscillator.detuneAmount (snd (UnisonOscillator.getNextSampleStereo u))
     = UnisonOscillator.detuneAmount u
  /\ UnisonOscillator.stereoWidth (snd (UnisonOscillator.getNextSampleStereo u))
     = UnisonOscillator.stereoWidth u.
Proof.
  unfold UnisonOscillator.getNextSampleStereo.
  destruct (forLoop _ _ _ _) as [[l r] oscs]. repeat split.
Qed.

Lemma renderFrame_settings (v : t E F) (g : G) :
  sameSettings v (snd (fst (renderFrame v g)))
  /\ currentlyPlayingNote (snd (fst (renderFrame v g))) = currentlyPlayingNote v.
Proof.
  unfold renderFrame.
  destruct (unison_step_settings (oscillator v)) as (U1 & U2 & U3).
  destruct (Juce.getNextSample (adsr v)) as [envValue adsr'].
  destruct (Juce.getNextSample (filterAdsr v)) as [filterEnvValue filterAdsr'].
  destruct (UnisonOscillator.getNextSampleStereo (oscillator v))
    as [[rawLeft rawRight] osc'].
  destruct (Juce.processSample 0 _ _) as [filteredLeft filter2].
  destruct (Juce.processSample 1 _ _) as [filteredRight filter3].
  destruct (VintageProcessor.addAnalogNoise _ _ _) as [noise random'].
  cbn [fst snd] in *. unfold sameSettings. cbn. repeat split; assumption.
Qed.

(** The loop of [renderNextBlock] keeps the settings of the voice. *)
Lemma renderLoop_settings (count : nat) :
  forall (s : Z) (b : AudioBuffer.t) (v : t E F) (g : G),
  sameSettings v (snd (fst (forLoop renderSample count s (b, v, g))))
  /\ currentlyPlayingNote (snd (fst (forLoop renderSample count s (b, v, g))))
     = currentlyPlayingNote v.
Proof.
  induction count as [|c IH]; intros s b v g.
  - cbn. split; [apply sameSettings_refl | reflexivity].
  - cbn [forLoop].
    destruct (renderSample_state s b v g) as [Ev _].
    destruct (renderFrame_settings v g) as [S1 N1]. rewrite <- Ev in S1, N1.
    destruct (renderSample s (b, v, g)) as [[b1 v1] g1]. cbn [fst snd] in *.
    destruct (IH (s + 1)%Z b1 v1 g1) as [S2 N2].
    split; [eapply sameSettings_trans; eassumption | congruence].
Qed.

Lemma renderLoop_state_independent (count : nat) :
  forall (s s' : Z) (b b' : AudioBuffer.t) (v : t E F) (g : G),
  snd (fst (forLoop renderSample count s (b, v, g)))
  = snd (fst (forLoop renderSample count s' (b', v, g)))
  /\ snd (forLoop renderSample count s (b, v, g))
     = snd (forLoop renderSample count s' (b', v, g)).
Proof.
  induction count as [|c IH]; intros s s' b b' v g.
  - split; reflexivity.
  - cbn [forLoop].
    destruct (renderSample_state s b v g) as [Ev Eg].
    destruct (renderSample_state s' b' v g) as [Ev' Eg'].
    destruct (renderSample s (b, v, g)) as [[b1 v1] g1].
    destruct (renderSample s' (b', v, g)) as [[b1' v1'] g1'].
    cbn [fst snd] in *. subst. apply IH.
Qed.

Lemma renderNextBlock_active (b : AudioBuffer.t) (startSample numSamples : Z)
    (v : t E F) (g : G) :
  Juce.isActive (adsr v) = true ->
  renderNextBlock b startSample numSamples v g
  = (let '(b1, v1, g1) :=
       forLoop renderSample (Z.to_nat numSamples) startSample (b, v, g) in
     if negb (Juce.isActive (adsr v1)) then (b1, clearCurrentNote v1, g1)
     else (b1, v1, g1)).
Proof. intros Ha. unfold renderNextBlock. rewrite Ha. reflexivity. Qed.

(** One run of the loop body adds the two values of the frame at position
    [s] of channels 0 and 1, and keeps the shape of the buffer. *)
Lemma renderSample_adds (s : Z) (b : AudioBuffer.t) (v : t E F) (g : G) (c i : nat) :
  sampleAt (fst (fst (renderSample s (b, v, g)))) c i
  = option_map
      (fun y => y + (added 0 s (fst (fst (fst (renderFrame v g)))) c i
                     + added 1 s (snd (fst (fst (renderFrame v g)))) c i))
      (sampleAt b c i)
  /\ map (@length R) (fst (fst (renderSample s (b, v, g)))) = map (@length R) b.
Proof.
  unfold renderSample.
  destruct (renderFrame v g) as [[[l r] v'] g']. cbn [fst snd].
  split.
  - rewrite guarded_addSample_sampleAt, guarded_addSample_sampleAt by lia.
    destruct (sampleAt b c i); cbn; [f_equal; ring | reflexivity].
  - rewrite !guarded_addSample_shape. reflexivity.
Qed.

(** The loop: what it adds does not depend on the buffer, and is zero
    outside the block and the first two channels. *)
Lemma renderLoop_accumulates (count : nat) :
  forall (s : Z) (v : t E F) (g : G),
  exists contribution : nat -> nat -> R,
    (forall c i : nat,
        contribution c i = 0
        \/ ((c < 2)%nat /\ (s <= Z.of_nat i < s + Z.of_nat count)%Z))
    /\ forall (b : AudioBuffer.t),
        (forall c i : nat,
           sampleAt (fst (fst (forLoop renderSample count s (b, v, g)))) c i
           = option_map (fun y => y + contribution c i) (sampleAt b c i))
        /\ map (@length R) (fst (fst (forLoop renderSample count s (b, v, g))))
           = map (@length R) b.
Proof.
  induction count as [|k IH]; intros s v g.
  - exists (fun _ _ => 0). split; [intros; left; reflexivity|].
    intros b. cbn [forLoop fst]. split; [|reflexivity].
    intros c i. symmetry. apply option_map_plus_0.
  - destruct (IH (s + 1)%Z (snd (fst (renderFrame v g))) (snd (renderFrame v g)))
      as (rest & Hzero & Hrest).
    set (left := fst (fst (fst (renderFrame v g)))).
    set (right := snd (fst (fst (renderFrame v g)))).
    exists (fun c i => (added 0 s left c i + added 1 s right c i) + rest c i).
    split.
    + intros c i. unfold added.
      destruct (Z.eqb_spec (Z.of_nat c) 0), (Z.eqb_spec (Z.of_nat c) 1),
               (Z.eqb_spec (Z.of_nat i) s); cbn [andb];
        try (right; split; lia);
        (destruct (Hzero c i) as [-> | [Hc Hi]]; [left; ring | right; split; lia]).
    + intros b. cbn [forLoop].
      destruct (renderSample_state s b v g) as [Ev Eg].
      pose proof (fun c i => renderSample_adds s b v g c i) as Hadd.
      fold left right in Hadd.
      destruct (renderSample s (b, v, g)) as [[b1 v1] g1]. cbn [fst snd] in *.
      subst v1 g1. destruct (Hrest b1) as [Hs Hshape].
      split.
      * intros c i. rewrite Hs, (proj1 (Hadd c i)).
        destruct (sampleAt b c i); cbn; [f_equal; ring | reflexivity].
      * rewrite Hshape. exact (proj2 (Hadd 0%nat 0%nat)).
Qed.

(** X18: for a noise level between 0 and 100 percent, and a generator that
    draws from [[0, 1)], the noise sample that [addAnalogNoise] returns
    after [updateNoise] is at most [0.0003 * percent] in absolute value,
    hence never more than 0.03; the stored level is the percentage divided
    by 100. *)
Theorem updateNoise_bounds_the_noise (enable : bool) (percent : R) (v : t E F)
    (g : G) :
  (forall g' : G, 0 <= fst (Juce.nextFloat g') < 1) ->
  0 <= percent <= 100 ->
  noiseLevel (updateNoise enable percent v) = percent / 100
  /\ Rabs (fst (VintageProcessor.addAnalogNoise
                  (noiseEnabled (updateNoise enable percent v))
                  (noiseLevel (updateNoise enable percent v)) g))
     <= 0.0003 * percent
  /\ 0.0003 * percent <= 0.03.
Proof.
  intros Hr Hp. cbn [updateNoise noiseLevel noiseEnabled].
  split; [reflexivity|]. split; [|lra].
  destruct enable.
  - rewrite VintageProps.addAnalogNoise_enabled. cbn [fst].
    pose proof (Hr g) as Hx. apply Rabs_le. nra.
  - cbn. rewrite Rabs_R0. lra.
Qed.

(** X19: asked for no samples, or for a negative number of them,
    [renderNextBlock] changes nothing: neither the buffer, nor the voice,
    nor the noise generator. *)
Theorem renderNextBlock_no_samples (b : AudioBuffer.t) (startSample numSamples : Z)
    (v : t E F) (g : G) :
  (numSamples <= 0)%Z ->
  renderNextBlock b startSample numSamples v g = (b, v, g).
Proof.
  intros Hn. unfold renderNextBlock.
  destruct (Juce.isActive (adsr v)) eqn:Ea; [|reflexivity].
  cbn [negb]. replace (Z.to_nat numSamples) with 0%nat by lia.
  cbn [forLoop]. rewrite Ea. reflexivity.
Qed.

(** X20: rendering [n + m] samples in one call is rendering [n] samples
    and then [m] samples from position [startSample + n], as long as the
    amplitude envelope is still active after the first [n]: the host may cut
    a block of a sounding voice anywhere. *)
Theorem renderNextBlock_split (b : AudioBuffer.t) (startSample n m : Z)
    (v : t E F) (g : G) :
  (0 <= n)%Z -> (0 <= m)%Z ->
  Juce.isActive (adsr (snd (fst (renderNextBlock b startSample n v g)))) = true ->
  renderNextBlock b startSample (n + m) v g
  = (let '(b1, v1, g1) := renderNextBlock b startSample n v g in
     renderNextBlock b1 (startSample + n) m v1 g1).
Proof.
  intros Hn Hm Hact.
  destruct (Juce.isActive (adsr v)) eqn:Ea.
  - rewrite (renderNextBlock_active b startSample (n + m) v g Ea).
    rewrite (renderNextBlock_active b startSample n v g Ea) in Hact |- *.
    rewrite Z2Nat.inj_add, forLoop_app, Z2Nat.id by lia.
    destruct (forLoop renderSample (Z.to_nat n) startSample (b, v, g)) as [[b1 v1] g1].
    destruct (Juce.isActive (adsr v1)) eqn:Ea1; cbn [negb fst snd] in Hact |- *.
    + rewrite (renderNextBlock_active b1 (startSample + n) m v1 g1 Ea1). reflexivity.
    + cbn [adsr clearCurrentNote] in Hact. congruence.
  - unfold renderNextBlock in Hact. rewrite Ea in Hact. cbn [negb fst snd] in Hact.
    congruence.
Qed.

(** X21: [renderNextBlock] mixes into the buffer, it never overwrites nor
    resizes it: every sample of the buffer is its old value plus a
    contribution of the voice that does not depend on the content of the
    buffer, and that is zero outside the block
    [[startSample, startSample + numSamples)] and outside the first two
    channels. *)
Theorem renderNextBlock_accumulates (startSample numSamples : Z) (v : t E F) (g : G) :
  exists contribution : nat -> nat -> R,
    (forall c i : nat,
        contribution c i = 0
        \/ ((c < 2)%nat /\ (startSample <= Z.of_nat i < startSample + numSamples)%Z))
    /\ forall (b : AudioBuffer.t),
        (forall c i : nat,
           sampleAt (fst (fst (renderNextBlock b startSample numSamples v g))) c i
           = option_map (fun y => y + contribution c i) (sampleAt b c i))
        /\ map (@length R) (fst (fst (renderNextBlock b startSample numSamples v g)))
           = map (@length R) b.
Proof.
  unfold renderNextBlock.
  destruct (Juce.isActive (adsr v)); cbn [negb].
  - destruct (renderLoop_accumulates (Z.to_nat numSamples) startSample v g)
      as (contribution & Hzero & Hc).
    exists contribution. split.
    + intros c i.
      destruct (Hzero c i) as [Hz | [Hc1 Hc2]]; [left; exact Hz | right; split; lia].
    + intros b. destruct (Hc b) as [Hs Hshape].
      destruct (forLoop renderSample _ _ _) as [[b1 v1] g1]. cbn [fst snd] in *.
      destruct (negb (Juce.isActive (adsr v1))); cbn [fst]; split; assumption.
  - exists (fun _ _ => 0). split; [intros; left; reflexivity|].
    intros b. cbn [fst]. split; [|reflexivity].
    intros c i. symmetry. apply option_map_plus_0.
Qed.

(** X22: the voice and the noise generator that [renderNextBlock] leaves
    behind depend on the number of samples only: neither on the buffer it is
    given (its content, its number of channels, its length) nor on the start
    position. A voice rendered into a buffer without channels advances as
    if it were heard. *)
Theorem renderNextBlock_state_independent_of_buffer
    (b b' : AudioBuffer.t) (startSample startSample' numSamples : Z)
    (v : t E F) (g : G) :
  snd (fst (renderNextBlock b startSample numSamples v g))
  = snd (fst (renderNextBlock b' startSample' numSamples v g))
  /\ snd (renderNextBlock b startSample numSamples v g)
     = snd (renderNextBlock b' startSample' numSamples v g).
Proof.
  unfold renderNextBlock.
  destruct (Juce.isActive (adsr v)); cbn [negb]; [|split; reflexivity].
  destruct (renderLoop_state_independent (Z.to_nat numSamples) startSample startSample'
              b b' v g) as [Ev Eg].
  destruct (forLoop renderSample _ startSample _) as [[b1 v1] g1].
  destruct (forLoop renderSample _ startSample' _) as [[b1' v1'] g1'].
  cbn [fst snd] in *. subst.
  destruct (negb (Juce.isActive (adsr v1'))); split; reflexivity.
Qed.

(** X23: after a block rendered by a voice whose amplitude envelope was
    active, the voice holds its note exactly when the envelope is still
    active, and is freed (note -1) when the envelope has ended during the
    block; level, frequency, filter and noise settings, and the settings of
    the unison oscillator are those from before the block. *)
Theorem renderNextBlock_frees_when_envelope_ends
    (b : AudioBuffer.t) (startSample numSamples : Z) (v : t E F) (g : G) :
  Juce.isActive (adsr v) = true ->
  currentlyPlayingNote (snd (fst (renderNextBlock b startSample numSamples v g)))
  = (if Juce.isActive (adsr (snd (fst (renderNextBlock b startSample numSamples v g))))
     then currentlyPlayingNote v else (-1)%Z)
  /\ sameSettings v (snd (fst (renderNextBlock b startSample numSamples v g))).
Proof.
  intros Ha. unfold renderNextBlock. rewrite Ha. cbn [negb].
  destruct (renderLoop_settings (Z.to_nat numSamples) startSample b v g) as [S1 N1].
  destruct (forLoop renderSample _ _ _) as [[b1 v1] g1]. cbn [fst snd] in *.
  destruct (Juce.isActive (adsr v1)) eqn:Ea1; cbn [negb fst snd].
  - rewrite Ea1. split; assumption.
  - cbn [adsr clearCurrentNote]. rewrite Ea1. split; [reflexivity | exact S1].
Qed.


(** X25: for a base cutoff within the range of the filter and an envelope
    value in [[0, 1]], the cutoff that [renderNextBlock] gives the filter
    moves away from the base cutoff by at most 50 Hz per percent of
    envelope amount, scaled by the envelope value, and in the direction of
    the sign of the amount. *)
Theorem modulatedCutoff_excursion (v : t E F) (filterEnvValue : R) :
  20 <= baseCutoff v <= 20000 -> 0 <= filterEnvValue <= 1 ->
  Rabs (modulatedCutoff v filterEnvValue - baseCutoff v)
  <= 50 * Rabs (filterEnvAmount v) * filterEnvValue
  /\ 0 <= (modulatedCutoff v filterEnvValue - baseCutoff v) * filterEnvAmount v.
Proof.
  intros Hb He. unfold modulatedCutoff, Juce.jlimit. cbn zeta.
  set (a := filterEnvAmount v). set (c := baseCutoff v) in *.
  set (m := filterEnvValue * (a / 100) * 5000).
  assert (Em : m = 50 * a * filterEnvValue) by (unfold m; field).
  destruct (Rcase_abs a) as [Ha|Ha].
  - rewrite (Rabs_left a Ha).
    destruct (Rlt_dec (c + m) 20); [|destruct (Rlt_dec 20000 (c + m))];
      (split; [apply Rabs_le; nra | nra]).
  - rewrite (Rabs_right a Ha).
    destruct (Rlt_dec (c + m) 20); [|destruct (Rlt_dec 20000 (c + m))];
      (split; [apply Rabs_le; nra | nra]).
Qed.

End Generic.

(** A voice that has just been given a note, for the examples below. *)
Lemma newEnvelope_attackRate :
  0 < JuceADSR.attackRate (newEnvelope 44100) < 1 / 2.
Proof.
  cbn [newEnvelope JuceADSR.make JuceADSR.attackRate JuceADSR.p_attack].
  rewrite JuceADSRProps.getRate_positive by lra.
  replace (0.1 * 44100) with 4410 by lra. lra.
Qed.

Lemma started_voice_envelope :
  adsr (startNote 60 1 (newVoice 44100))
  = JuceADSR.withState JuceADSR.attack 0 (newEnvelope 44100).
Proof.
  pose proof newEnvelope_attackRate as Hr.
  change (adsr (startNote 60 1 (newVoice 44100)))
    with (JuceADSR.noteOn (newEnvelope 44100)).
  apply JuceADSRProps.noteOn_attack. lra.
Qed.

Lemma started_voice_active :
  Juce.isActive (adsr (startNote 60 1 (newVoice 44100))) = true.
Proof. rewrite started_voice_envelope. reflexivity. Qed.

Lemma started_voice_active_after_one_sample (b : AudioBuffer.t) (g : JuceRandom.t) :
  Juce.isActive
    (adsr (snd (fst (renderNextBlock b 0 1 (startNote 60 1 (newVoice 44100)) g))))
  = true.
Proof.
  pose proof newEnvelope_attackRate as Hr.
  destruct (VoiceProps.renderNextBlock_one b 0 (startNote 60 1 (newVoice 44100)) g
              started_voice_active) as (_ & Ea & _).
  rewrite Ea, started_voice_envelope.
  change (Juce.getNextSample ?a) with (JuceADSR.getNextSample a).
  rewrite JuceADSRProps.getNextSample_attack; [reflexivity | reflexivity |].
  cbn [JuceADSR.withState JuceADSR.envelopeVal JuceADSR.attackRate]. lra.
Qed.

Lemma updateNoise_bounds_the_noise_witness :
  (forall g' : JuceRandom.t, 0 <= fst (Juce.nextFloat g') < 1)
  /\ 0 <= 30 <= 100
  /\ Rabs (fst (VintageProcessor.addAnalogNoise
                  (noiseEnabled (updateNoise true 30 (newVoice 44100)))
                  (noiseLevel (updateNoise true 30 (newVoice 44100)))
                  (JuceRandom.mk 1)))
     <= 0.0003 * 30.
Proof.
  assert (H1 : forall g' : JuceRandom.t, 0 <= fst (Juce.nextFloat g') < 1)
    by (exact VintageProps.JuceRandom_nextFloat_range).
  assert (H2 : 0 <= 30 <= 100) by lra.
  split; [exact H1|]. split; [exact H2|].
  exact (proj1 (proj2 (updateNoise_bounds_the_noise true 30 (newVoice 44100)
                         (JuceRandom.mk 1) H1 H2))).
Defined.

Lemma renderNextBlock_no_samples_witness :
  (0 <= 0)%Z
  /\ renderNextBlock [[0]; [0]] 0 0 (startNote 60 1 (newVoice 44100)) (JuceRandom.mk 1)
     = ([[0]; [0]], startNote 60 1 (newVoice 44100), JuceRandom.mk 1).
Proof.
  assert (H : (0 <= 0)%Z) by lia.
  split; [exact H|].
  exact (renderNextBlock_no_samples [[0]; [0]] 0 0 (startNote 60 1 (newVoice 44100))
           (JuceRandom.mk 1) H).
Defined.

Lemma renderNextBlock_split_witness :
  (0 <= 1)%Z
  /\ Juce.isActive
       (adsr (snd (fst (renderNextBlock [[0; 0]; [0; 0]] 0 1
                          (startNote 60 1 (newVoice 44100)) (JuceRandom.mk 1)))))
     = true
  /\ renderNextBlock [[0; 0]; [0; 0]] 0 (1 + 1)
       (startNote 60 1 (newVoice 44100)) (JuceRandom.mk 1)
     = (let '(b1, v1, g1) :=
          renderNextBlock [[0; 0]; [0; 0]] 0 1
            (startNote 60 1 (newVoice 44100)) (JuceRandom.mk 1) in
        renderNextBlock b1 (0 + 1) 1 v1 g1).
Proof.
  assert (H1 : (0 <= 1)%Z) by lia.
  pose proof (started_voice_active_after_one_sample [[0; 0]; [0; 0]] (JuceRandom.mk 1))
    as H2.
  split; [exact H1|]. split; [exact H2|].
  exact (renderNextBlock_split [[0; 0]; [0; 0]] 0 1 1
           (startNote 60 1 (newVoice 44100)) (JuceRandom.mk 1) H1 H1 H2).
Defined.

Lemma renderNextBlock_frees_when_envelope_ends_witness :
  Juce.isActive (adsr (startNote 60 1 (newVoice 44100))) = true
  /\ sameSettings (startNote 60 1 (newVoice 44100))
       (snd (fst (renderNextBlock [[0]; [0]] 0 1
                    (startNote 60 1 (newVoice 44100)) (JuceRandom.mk 1)))).
Proof.
  split; [exact started_voice_active|].
  exact (proj2 (renderNextBlock_frees_when_envelope_ends [[0]; [0]] 0 1
                  (startNote 60 1 (newVoice 44100)) (JuceRandom.mk 1)
                  started_voice_active)).
Defined.


Lemma modulatedCutoff_excursion_witness :
  20 <= baseCutoff (updateFilter 1000 0.7 50 (newVoice 44100)) <= 20000
  /\ 0 <= 0.5 <= 1
  /\ Rabs (modulatedCutoff (updateFilter 1000 0.7 50 (newVoice 44100)) 0.5
           - baseCutoff (updateFilter 1000 0.7 50 (newVoice 44100)))
     <= 50 * Rabs (filterEnvAmount (updateFilter 1000 0.7 50 (newVoice 44100))) * 0.5.
Proof.
  assert (H1 : 20 <= baseCutoff (updateFilter 1000 0.7 50 (newVoice 44100)) <= 20000).
  { cbn [updateFilter baseCutoff]. lra. }
  assert (H2 : 0 <= 0.5 <= 1) by lra.
  split; [exact H1|]. split; [exact H2|].
  exact (proj1 (modulatedCutoff_excursion
                  (updateFilter 1000 0.7 50 (newVoice 44100)) 0.5 H1 H2)).
Defined.

End VoiceExtra.

(* ================================================================= *)
(** ** The perceptual compensation of [processBlock] *)

Module CompensationProps.
Import FletcherMunson.

Lemma processChannel_cons (st : ChannelState) (x : R) (xs : list R) :
  processChannel st (x :: xs)
  = (fst (processSample st x) :: fst (processChannel (snd (processSample st x)) xs),
     snd (processChannel (snd (processSample st x)) xs)).
Proof.
  cbn [processChannel]. destruct (processSample st x) as [o st1]. cbn [fst snd].
  destruct (processChannel st1 xs) as [os st2]. reflexivity.
Qed.

Lemma processChannel_length (st : ChannelState) (xs : list R) :
  length (fst (processChannel st xs)) = length xs.
Proof.
  revert st. induction xs as [|x xs IH]; intros st; [reflexivity|].
  rewrite processChannel_cons. cbn [fst length]. rewrite IH. reflexivity.
Qed.

(** X26: the compensation does not depend on how the host cuts the audio
    into blocks: filtering a channel in one piece gives the samples, and
    leaves the memories, of filtering its first part and then the rest with
    the memories the first part left; and the channel keeps its length. *)
Theorem processChannel_block_split (st : ChannelState) (xs ys : list R) :
  processChannel st (xs ++ ys)
  = (fst (processChannel st xs) ++ fst (processChannel (snd (processChannel st xs)) ys),
     snd (processChannel (snd (processChannel st xs)) ys))
  /\ length (fst (processChannel st xs)) = length xs.
Proof.
  revert st. induction xs as [|x xs IH]; intros st.
  - cbn. destruct (processChannel st ys). split; reflexivity.
  - rewrite <- app_comm_cons, !processChannel_cons. cbn [fst snd].
    destruct (IH (snd (processSample st x))) as [E L].
    rewrite E. cbn [fst snd length]. rewrite L. split; reflexivity.
Qed.

Lemma biquad_scale (b0 b1 b2 a1 a2 k : R) (s : Biquad) (x : R) :
  biquad b0 b1 b2 a1 a2 (scaleBiquad k s) (k * x)
  = (k * fst (biquad b0 b1 b2 a1 a2 s x),
     scaleBiquad k (snd (biquad b0 b1 b2 a1 a2 s x))).
Proof.
  unfold biquad, scaleBiquad. cbn. f_equal; [ring|]. f_equal; ring.
Qed.

Lemma biquad_add (b0 b1 b2 a1 a2 : R) (s s' : Biquad) (x x' : R) :
  biquad b0 b1 b2 a1 a2 (addBiquad s s') (x + x')
  = (fst (biquad b0 b1 b2 a1 a2 s x) + fst (biquad b0 b1 b2 a1 a2 s' x'),
     addBiquad (snd (biquad b0 b1 b2 a1 a2 s x)) (snd (biquad b0 b1 b2 a1 a2 s' x'))).
Proof.
  unfold biquad, addBiquad. cbn. f_equal; [ring|]. f_equal; ring.
Qed.

Lemma processSample_scale (k : R) (st : ChannelState) (x : R) :
  processSample (scaleState k st) (k * x)
  = (k * fst (processSample st x), scaleState k (snd (processSample st x))).
Proof.
  unfold processSample, scaleState. cbn [hp shelf peak].
  rewrite biquad_scale.
  destruct (biquad _ _ _ _ _ (hp st) x) as [o1 s1]. cbn [fst snd].
  rewrite biquad_scale.
  destruct (biquad _ _ _ _ _ (shelf st) o1) as [o2 s2]. cbn [fst snd].
  rewrite biquad_scale.
  destruct (biquad _ _ _ _ _ (peak st) o2) as [o3 s3]. cbn [fst snd hp shelf peak].
  f_equal. ring.
Qed.

Lemma processSample_add (st st' : ChannelState) (x x' : R) :
  processSample (addState st st') (x + x')
  = (fst (processSample st x) + fst (processSample st' x'),
     addState (snd (processSample st x)) (snd (processSample st' x'))).
Proof.
  unfold processSample, addState. cbn [hp shelf peak].
  rewrite biquad_add.
  destruct (biquad _ _ _ _ _ (hp st) x) as [o1 s1].
  destruct (biquad _ _ _ _ _ (hp st') x') as [o1' s1']. cbn [fst snd].
  rewrite biquad_add.
  destruct (biquad _ _ _ _ _ (shelf st) o1) as [o2 s2].
  destruct (biquad _ _ _ _ _ (shelf st') o1') as [o2' s2']. cbn [fst snd].
  rewrite biquad_add.
  destruct (biquad _ _ _ _ _ (peak st) o2) as [o3 s3].
  destruct (biquad _ _ _ _ _ (peak st') o2') as [o3' s3']. cbn [fst snd hp shelf peak].
  f_equal. ring.
Qed.

(** A gain before the compensation is the same gain after it. *)
Lemma processChannel_homogeneous (k : R) (st : ChannelState) (xs : list R) :
  processChannel (scaleState k st) (map (Rmult k) xs)
  = (map (Rmult k) (fst (processChannel st xs)),
     scaleState k (snd (processChannel st xs))).
Proof.
  revert st. induction xs as [|x xs IH]; intros st.
  - reflexivity.
  - cbn [map]. rewrite !processChannel_cons, processSample_scale. cbn [fst snd map].
    rewrite IH. reflexivity.
Qed.

Lemma processChannel_additive (st st' : ChannelState) (xs ys : list R) :
  length xs = length ys ->
  processChannel (addState st st') (addSignals xs ys)
  = (addSignals (fst (processChannel st xs)) (fst (processChannel st' ys)),
     addState (snd (processChannel st xs)) (snd (processChannel st' ys))).
Proof.
  revert st st' ys. induction xs as [|x xs IH]; intros st st' [|y ys] Hl;
    try discriminate.
  - reflexivity.
  - cbn [addSignals]. rewrite !processChannel_cons, processSample_add.
    cbn [fst snd addSignals].
    rewrite IH by (cbn in Hl; lia). reflexivity.
Qed.

(** X27: the compensation is linear: on the mix [k * xs + ys] of two
    signals of one length, started from the same mix of two memories, it
    returns the mix of what it returns on each, and leaves the mix of the
    memories. It adds no distortion, and filtering the sum of the voices is
    filtering each voice. *)
Theorem processChannel_linear (k : R) (st st' : ChannelState) (xs ys : list R) :
  length xs = length ys ->
  processChannel (addState (scaleState k st) st') (addSignals (map (Rmult k) xs) ys)
  = (addSignals (map (Rmult k) (fst (processChannel st xs)))
       (fst (processChannel st' ys)),
     addState (scaleState k (snd (processChannel st xs)))
       (snd (processChannel st' ys))).
Proof.
  intros Hl.
  rewrite processChannel_additive by (rewrite length_map; exact Hl).
  rewrite processChannel_homogeneous. reflexivity.
Qed.

Lemma processChannel_linear_witness :
  length [1; 2] = length [3; 4]
  /\ fst (processChannel (addState (scaleState 2 atRest) atRest)
            (addSignals (map (Rmult 2) [1; 2]) [3; 4]))
     = addSignals (map (Rmult 2) (fst (processChannel atRest [1; 2])))
         (fst (processChannel atRest [3; 4])).
Proof.
  assert (H : length [1; 2] = length [3; 4]) by reflexivity.
  split; [exact H|].
  exact (f_equal fst (processChannel_linear 2 atRest atRest [1; 2] [3; 4] H)).
Defined.

Lemma scaleState_zero (st : ChannelState) : scaleState 0 st = atRest.
Proof.
  unfold scaleState, scaleBiquad, atRest. repeat f_equal; ring.
Qed.

(** Memories at rest and a silent channel: silence, and memories at rest. *)
Lemma silence_stays_silent (n : nat) :
  processChannel atRest (repeat 0 n) = (repeat 0 n, atRest).
Proof.
  pose proof (processChannel_homogeneous 0 atRest (repeat 0 n)) as H.
  rewrite scaleState_zero in H.
  assert (E : forall l, map (Rmult 0) l = repeat 0 (length l)).
  { induction l as [|a l IHl]; cbn; [reflexivity|]. rewrite IHl. f_equal. ring. }
  rewrite !E in H. rewrite repeat_length in H. rewrite H.
  rewrite scaleState_zero. f_equal. f_equal.
  rewrite processChannel_length, repeat_length. reflexivity.
Qed.

(** The loop over the channels keeps the shape of the buffer. *)
Lemma processChannels_shape (states : list ChannelState) (b : AudioBuffer.t) :
  map (@length R) (fst (processChannels states b)) = map (@length R) b
  /\ length (snd (processChannels states b)) = length states.
Proof.
  revert b. induction states as [|st states IH]; intros [|ch b];
    try (split; reflexivity).
  cbn [processChannels].
  pose proof (processChannel_length st ch) as L.
  destruct (processChannel st ch) as [ch' st'].
  destruct (IH b) as [E1 E2].
  destruct (processChannels states b) as [b' states']. cbn [fst snd map length] in *.
  rewrite E1, E2, L. split; reflexivity.
Qed.

End CompensationProps.

(* ================================================================= *)
(** ** The FIFO of the spectrum analyser *)

Module AnalyserProps.
Import SpectrumAnalyzer.

Lemma fftSize_eq : fftSize = 2048%Z.
Proof. reflexivity. Qed.

Lemma analyserInvariant_init : analyserInvariant init.
Proof.
  unfold analyserInvariant, init. cbn [fifo scopeData fifoIndex].
  rewrite !repeat_length. pose proof fftSize_eq.
  repeat split; try lia. apply Forall_repeat. lra.
Qed.

Section WithTransform.
Variable transform : list R -> list R.

Lemma push_inside (x : R) (a : t) :
  (fifoIndex a < fftSize - 1)%Z ->
  pushNextSampleIntoFifo transform x a
  = mk (replace_nth (Z.to_nat (fifoIndex a)) x (fifo a)) (fftData a) (scopeData a)
       (fifoIndex a + 1) (nextFFTBlockReady a).
Proof.
  intros Hi. unfold pushNextSampleIntoFifo. cbn zeta.
  destruct (Z.ltb_spec (fifoIndex a) fftSize); [|lia].
  destruct (Z.leb_spec (fftSize - 1) (fifoIndex a)); [lia|]. reflexivity.
Qed.

Lemma push_last (x : R) (a : t) :
  fifoIndex a = (fftSize - 1)%Z ->
  pushNextSampleIntoFifo transform x a
  = if nextFFTBlockReady a
    then mk (replace_nth (Z.to_nat (fifoIndex a)) x (fifo a))
           (fftData a) (scopeData a) 0 true
    else mk (replace_nth (Z.to_nat (fifoIndex a)) x (fifo a))
           (transform (replace_nth (Z.to_nat (fifoIndex a)) x (fifo a)
                       ++ repeat 0 (Z.to_nat fftSize)))
           (forLoop (cellwise (fun i _ =>
                       scopeLevel
                         (transform (replace_nth (Z.to_nat (fifoIndex a)) x (fifo a)
                                     ++ repeat 0 (Z.to_nat fftSize))) i))
              (Z.to_nat scopeSize) 0%Z (scopeData a))
           0 true.
Proof.
  intros Hi. unfold pushNextSampleIntoFifo. cbn zeta.
  destruct (Z.ltb_spec (fifoIndex a) fftSize); [|rewrite fftSize_eq in *; lia].
  destruct (Z.leb_spec (fftSize - 1) (fifoIndex a)); [|lia].
  cbn [nextFFTBlockReady fifo fftData scopeData fifoIndex].
  destruct (nextFFTBlockReady a); reflexivity.
Qed.

(** X28: [pushNextSampleIntoFifo] keeps the FIFO and the scope at their
    sizes and keeps the write index inside the FIFO, so that [fifo[index]]
    is never out of range; the index advances by one modulo the size of
    the FIFO. *)
Theorem push_keeps_sizes_and_index (x : R) (a : t) :
  length (fifo a) = Z.to_nat fftSize ->
  length (scopeData a) = Z.to_nat scopeSize ->
  (0 <= fifoIndex a < fftSize)%Z ->
  length (fifo (pushNextSampleIntoFifo transform x a)) = Z.to_nat fftSize
  /\ length (scopeData (pushNextSampleIntoFifo transform x a)) = Z.to_nat scopeSize
  /\ (0 <= fifoIndex (pushNextSampleIntoFifo transform x a) < fftSize)%Z
  /\ fifoIndex (pushNextSampleIntoFifo transform x a)
     = ((fifoIndex a + 1) mod fftSize)%Z.
Proof.
  intros Hf Hs Hi. pose proof fftSize_eq as Hsz.
  destruct (Z.eq_dec (fifoIndex a) (fftSize - 1)) as [El|El].
  - rewrite (push_last x a El).
    assert (Em : ((fifoIndex a + 1) mod fftSize = 0)%Z).
    { rewrite El. replace (fftSize - 1 + 1)%Z with fftSize by lia.
      apply Z.mod_same. lia. }
    rewrite Em.
    destruct (nextFFTBlockReady a); cbn [fifo scopeData fifoIndex];
      rewrite replace_nth_length, ?forLoop_cellwise_length;
      repeat split; try assumption; lia.
  - rewrite (push_inside x a) by lia. cbn [fifo scopeData fifoIndex].
    rewrite replace_nth_length, Z.mod_small by lia.
    repeat split; try assumption; lia.
Qed.

Lemma feed_cons (x : R) (xs : list R) (a : t) :
  feed transform (x :: xs) a = feed transform xs (pushNextSampleIntoFifo transform x a).
Proof. reflexivity. Qed.

(** Feeding fewer samples than the FIFO has room for only fills it. *)
Lemma feed_inside (xs : list R) :
  forall a : t,
  (0 <= fifoIndex a)%Z ->
  (fifoIndex a + Z.of_nat (length xs) <= fftSize - 1)%Z ->
  (Z.to_nat (fifoIndex a) + length xs <= length (fifo a))%nat ->
  fifoIndex (feed transform xs a) = (fifoIndex a + Z.of_nat (length xs))%Z
  /\ fftData (feed transform xs a) = fftData a
  /\ scopeData (feed transform xs a) = scopeData a
  /\ nextFFTBlockReady (feed transform xs a) = nextFFTBlockReady a
  /\ length (fifo (feed transform xs a)) = length (fifo a)
  /\ forall j : nat,
       nth_error (fifo (feed transform xs a)) j
       = if ((Z.to_nat (fifoIndex a) <=? j)
             && (j <? Z.to_nat (fifoIndex a) + length xs))%nat
         then nth_error xs (j - Z.to_nat (fifoIndex a))
         else nth_error (fifo a) j.
Proof.
  induction xs as [|x xs IH]; intros a H0 Hroom Hlen.
  - cbn [feed fold_left length]. repeat split; try lia.
    intros j. destruct (Nat.leb_spec (Z.to_nat (fifoIndex a)) j);
      destruct (Nat.ltb_spec j (Z.to_nat (fifoIndex a) + 0)); cbn [andb];
      try reflexivity; lia.
  - rewrite feed_cons. cbn [length] in *.
    rewrite (push_inside x a) by lia.
    set (a1 := mk _ _ _ _ _).
    destruct (IH a1) as (Ei & Ed & Es & Er & El & Ef).
    { unfold a1; cbn [fifoIndex]. lia. }
    { unfold a1; cbn [fifoIndex]. lia. }
    { unfold a1; cbn [fifoIndex fifo]. rewrite replace_nth_length. lia. }
    unfold a1 in *. cbn [fifoIndex fftData scopeData nextFFTBlockReady fifo] in *.
    rewrite replace_nth_length in El.
    repeat split; try assumption; try lia.
    intros j. rewrite Ef.
    replace (Z.to_nat (fifoIndex a + 1)) with (S (Z.to_nat (fifoIndex a))) by lia.
    set (k := Z.to_nat (fifoIndex a)) in *.
    destruct (Nat.leb_spec (S k) j); destruct (Nat.ltb_spec j (S k + length xs));
      destruct (Nat.leb_spec k j); destruct (Nat.ltb_spec j (k + S (length xs)));
      cbn [andb]; try lia.
    all: try (apply nth_error_replace_nth_other; lia).
    + replace (j - k)%nat with (S (j - S k)) by lia. reflexivity.
    + assert (j = k) by lia. subst j.
      rewrite nth_error_replace_nth_same by lia.
      replace (k - k)%nat with 0%nat by lia. reflexivity.
Qed.

Lemma push_unread (x : R) (a : t) :
  nextFFTBlockReady a = true ->
  fftData (pushNextSampleIntoFifo transform x a) = fftData a
  /\ scopeData (pushNextSampleIntoFifo transform x a) = scopeData a
  /\ nextFFTBlockReady (pushNextSampleIntoFifo transform x a) = true.
Proof.
  intros Hr. unfold pushNextSampleIntoFifo. cbn zeta.
  destruct (fifoIndex a <? fftSize)%Z, (fftSize - 1 <=? fifoIndex a)%Z;
    cbn [nextFFTBlockReady fftData scopeData]; rewrite ?Hr;
    cbn [nextFFTBlockReady fftData scopeData]; auto.
Qed.

(** X29: fed one block of [fftSize] samples from an empty FIFO, the
    analyser holds exactly these samples in its FIFO, is back at index 0
    with a block marked ready, and has handed the block, followed by
    [fftSize] zeros, to the transform; unless a block was still waiting,
    in which case the spectrum is left alone. *)
Theorem feed_full_block (xs : list R) (a : t) :
  analyserInvariant a -> fifoIndex a = 0%Z ->
  length xs = Z.to_nat fftSize ->
  fifo (feed transform xs a) = xs
  /\ fifoIndex (feed transform xs a) = 0%Z
  /\ nextFFTBlockReady (feed transform xs a) = true
  /\ fftData (feed transform xs a)
     = (if nextFFTBlockReady a then fftData a
        else transform (xs ++ repeat 0 (Z.to_nat fftSize))).
Proof.
  intros (Hf & Hs & Hi & Hr) H0 Hlen.
  pose proof fftSize_eq as Hsz.
  destruct (exists_last (l := xs)) as (front & x & ->).
  { intros ->. cbn in Hlen. lia. }
  rewrite length_app in Hlen. cbn [length] in Hlen.
  unfold feed. rewrite fold_left_app. cbn [fold_left]. fold (feed transform front a).
  destruct (feed_inside front a) as (Ei & Ed & Esc & Er & El & Ef); try lia.
  set (a1 := feed transform front a) in *.
  rewrite H0 in *. cbn [Z.to_nat Z.add] in *.
  assert (Efull : replace_nth (Z.to_nat (fifoIndex a1)) x (fifo a1) = front ++ [x]).
  { apply nth_error_ext. intros j. rewrite Ei.
    rewrite ?Z.add_0_l, Nat2Z.id.
    destruct (Nat.lt_trichotomy j (length front)) as [Hj | [Hj | Hj]].
    - rewrite nth_error_replace_nth_other by lia. rewrite Ef.
      destruct (Nat.ltb_spec j (0 + length front)); [|lia]. cbn [Nat.leb andb].
      rewrite Nat.sub_0_r. symmetry. apply nth_error_app1. exact Hj.
    - subst j. rewrite nth_error_replace_nth_same by lia.
      rewrite nth_error_app2 by lia. rewrite Nat.sub_diag. reflexivity.
    - rewrite nth_error_replace_nth_other by lia.
      transitivity (@None R).
      + apply nth_error_None. lia.
      + symmetry. apply nth_error_None. rewrite length_app. cbn. lia. }
  rewrite (push_last x a1) by lia. rewrite Efull, Er, Ed.
  destruct (nextFFTBlockReady a); cbn [fifo fifoIndex nextFFTBlockReady fftData];
    repeat split.
Qed.

(** X30: while a block waits to be painted, no amount of audio fed to the
    analyser touches the spectrum or the levels: the flag stays set, and
    the samples that arrive in the meantime are never analysed. *)
Theorem feed_keeps_unread_block (xs : list R) (a : t) :
  nextFFTBlockReady a = true ->
  fftData (feed transform xs a) = fftData a
  /\ scopeData (feed transform xs a) = scopeData a
  /\ nextFFTBlockReady (feed transform xs a) = true.
Proof.
  revert a. induction xs as [|x xs IH]; intros a Hr.
  - cbn. auto.
  - rewrite feed_cons. destruct (push_unread x a Hr) as (E1 & E2 & E3).
    destruct (IH _ E3) as (F1 & F2 & F3). rewrite F1, F2, E1, E2. auto.
Qed.

End WithTransform.

Lemma push_keeps_sizes_and_index_witness :
  length (fifo init) = Z.to_nat fftSize
  /\ length (scopeData init) = Z.to_nat scopeSize
  /\ (0 <= fifoIndex init < fftSize)%Z
  /\ fifoIndex (pushNextSampleIntoFifo (fun l => l) 0.5 init)
     = ((fifoIndex init + 1) mod fftSize)%Z.
Proof.
  destruct analyserInvariant_init as (H1 & H2 & H3 & _).
  split; [exact H1|]. split; [exact H2|]. split; [exact H3|].
  exact (proj2 (proj2 (proj2
    (push_keeps_sizes_and_index (fun l => l) 0.5 init H1 H2 H3)))).
Defined.

Lemma feed_full_block_witness :
  analyserInvariant init /\ fifoIndex init = 0%Z
  /\ length (repeat 0.5 (Z.to_nat fftSize)) = Z.to_nat fftSize
  /\ fifo (feed (fun l => l) (repeat 0.5 (Z.to_nat fftSize)) init)
     = repeat 0.5 (Z.to_nat fftSize).
Proof.
  assert (H2 : fifoIndex init = 0%Z) by reflexivity.
  assert (H3 : length (repeat 0.5 (Z.to_nat fftSize)) = Z.to_nat fftSize)
    by (apply repeat_length).
  split; [exact analyserInvariant_init|]. split; [exact H2|]. split; [exact H3|].
  exact (proj1 (feed_full_block (fun l => l) (repeat 0.5 (Z.to_nat fftSize)) init
                  analyserInvariant_init H2 H3)).
Defined.

Lemma feed_keeps_unread_block_witness :
  nextFFTBlockReady (mk [0; 0] [1; 2; 3; 4] [0.5] 0 true) = true
  /\ fftData (feed (fun l => l) [0.1; 0.2; 0.3] (mk [0; 0] [1; 2; 3; 4] [0.5] 0 true))
     = [1; 2; 3; 4].
Proof.
  assert (H : nextFFTBlockReady (mk [0; 0] [1; 2; 3; 4] [0.5] 0 true) = true)
    by reflexivity.
  split; [exact H|].
  exact (proj1 (feed_keeps_unread_block (fun l => l) [0.1; 0.2; 0.3]
                  (mk [0; 0] [1; 2; 3; 4] [0.5] 0 true) H)).
Defined.

End AnalyserProps.
